(** * dynamic/message_factory.go: MessageFactory and KnownTypeRegistry

    A shallow embedding of the message construction broker of package
    [dynamic].  Go pointers to mutable objects (registries, freshly
    allocated message structs) are addresses into an explicit store; the
    methods are computations in a small state monad whose outcomes are a
    normal return, a run-time panic, or blocking on the registry's
    [sync.RWMutex]. *)

From stdpp Require Import base option list strings gmap.

(** ** reflect.Type

    The only structure of a [reflect.Type] the code looks at is whether its
    [Kind()] is [reflect.Ptr] and, if so, its [Elem()]; every other kind is
    [Other].  [TNamed] and [TPtr] are the types of messages: the dynamic
    types of [proto.Message] values and what [proto.RegisterType] puts in
    the table of [proto.MessageType].  [TMap] is a map type, which
    [proto.RegisterMapType] puts in that table under the name of a map
    entry. *)

Inductive rtype : Type :=
| TNamed (name : string)
| TPtr (elem : rtype)
| TMap (key elem : rtype).

Inductive reflect_Kind : Type := Ptr | Other.

Definition Kind (t : rtype) : reflect_Kind :=
  match t with
  | TPtr _ => Ptr
  | TNamed _ => Other
  | TMap _ _ => Other
  end.

(** [Elem] panics on a type that has no element type; [None] stands for
    that panic. *)
Definition Elem (t : rtype) : option rtype :=
  match t with
  | TPtr e => Some e
  | TNamed _ => None
  | TMap _ e => Some e
  end.

Definition Kind_is_Ptr (t : rtype) : bool :=
  match Kind t with
  | Ptr => true
  | Other => false
  end.

(** Whether a type implements [proto.Message], which decides the type
    assertion [.(proto.Message)]: a map type has no methods and does not;
    the types of messages do. *)
Definition ImplementsMessage (t : rtype) : bool :=
  match t with
  | TMap _ _ => false
  | TNamed _ => true
  | TPtr _ => true
  end.

(** ** sync.RWMutex

    One writer or any number of readers.  In a sequential run a lock
    operation that would have to wait never returns. *)

Record RWMutex : Type := mkRWMutex {
  writer : bool;
  readers : nat
}.

Definition mu_zero : RWMutex := {| writer := false; readers := 0 |}.

(** ** The registry and the factory structs *)

Record KnownTypeRegistry : Type := mkKnownTypeRegistry {
  excludeWkt : bool;
  includeDefault : bool;
  mu : RWMutex;
  (** [None] is the nil map; a stored [None] is a nil [reflect.Type]. *)
  types : option (gmap string (option rtype))
}.

Definition KnownTypeRegistry_zero : KnownTypeRegistry :=
  {| excludeWkt := false; includeDefault := false; mu := mu_zero; types := None |}.

Definition set_mu (m : RWMutex) (reg : KnownTypeRegistry) : KnownTypeRegistry :=
  {| excludeWkt := excludeWkt reg; includeDefault := includeDefault reg;
     mu := m; types := types reg |}.

Definition set_types (t : option (gmap string (option rtype)))
    (reg : KnownTypeRegistry) : KnownTypeRegistry :=
  {| excludeWkt := excludeWkt reg; includeDefault := includeDefault reg;
     mu := mu reg; types := t |}.

(** Reading a Go map: a nil map and a missing key both give the zero value,
    here the nil [reflect.Type]. *)
Definition map_index (t : option (gmap string (option rtype))) (k : string)
    : option rtype :=
  match t with
  | None => None
  | Some m => default None (m !! k)
  end.

(** Modelled from the spec: the schema descriptor of package [desc], whose
    source is in another package; it "exposes at minimum
    fullyQualifiedName() -> string" and is used as a lookup key and as the
    binding of a generic message. *)
Record MessageDescriptor : Type := mkMessageDescriptor {
  GetFullyQualifiedName : string
}.

(** [er] and [ktr] are pointers: [None] is nil.  The extension registry is
    opaque to this file, only its address is passed along.  A factory's
    fields are never assigned after construction, so a [*MessageFactory] is
    modelled by [option MessageFactory]. *)
Record MessageFactory : Type := mkMessageFactory {
  er : option nat;
  ktr : option nat
}.

Definition NewMessageFactoryWithRegistries (er : option nat) (ktr : option nat)
    : option MessageFactory :=
  Some {| er := er; ktr := ktr |}.

Definition NewMessageFactoryWithExtensionRegistry (er : option nat)
    : option MessageFactory :=
  NewMessageFactoryWithRegistries er None.

Definition NewMessageFactoryWithKnownTypeRegistry (ktr : option nat)
    : option MessageFactory :=
  NewMessageFactoryWithRegistries None ktr.

(** ** proto.Message interface values

    [value] is the type of the contents of a Go value of a message type. *)

Inductive Message (value : Type) : Type :=
| MNil
  (** the nil interface *)
| MPtr (elem : rtype) (p : option nat)
  (** dynamic type [*elem]; [p] is the address of the pointee, [None] a
      typed nil pointer *)
| MVal (name : string) (v : value)
  (** a value of the non-pointer dynamic type [TNamed name], boxed by copy *)
| MDyn (md : MessageDescriptor) (mf : option MessageFactory).
  (** a generic [*dynamic.Message] *)

Arguments MNil {value}.
Arguments MPtr {value} elem p.
Arguments MVal {value} name v.
Arguments MDyn {value} md mf.

Definition is_nil {value : Type} (m : Message value) : bool :=
  match m with
  | MNil => true
  | _ => false
  end.

Definition reflect_TypeOf {value : Type} (m : Message value) : option rtype :=
  match m with
  | MNil => None
  | MPtr e _ => Some (TPtr e)
  | MVal n _ => Some (TNamed n)
  | MDyn _ _ => Some (TPtr (TNamed "dynamic.Message"))
  end.

(** The ambient services of packages [reflect] and [proto] in the linked
    program: [reflect.Zero], the table of compiled-in types
    ([proto.MessageType], nil is [None]), the test
    [t.Implements(typeOfWkt)], and the name a message reports
    ([proto.MessageName]). *)
Class Linked : Type := {
  value : Type;
  Zero : rtype → value;
  MessageType : string → option rtype;
  ImplementsWkt : rtype → bool;
  MessageName : Message value → string;
  (** A type with the method of [wkt] is not an unnamed map type, which
      has no methods. *)
  wkt_implements_Message : ∀ t, ImplementsWkt t = true → ImplementsMessage t = true
}.

Section Broker.

Context `{L : Linked}.

(** ** Store and computations *)

Record Store : Type := mkStore {
  regs : list KnownTypeRegistry;
  cells : list value
}.

Inductive outcome (A : Type) : Type :=
| Ret (a : A) (s : Store)
| Panic
| Blocked.

Arguments Ret {A} a s.
Arguments Panic {A}.
Arguments Blocked {A}.

Definition M (A : Type) : Type := Store → outcome A.

Definition ret {A : Type} (a : A) : M A := fun s => Ret a s.

Definition bind {A B : Type} (c : M A) (k : A → M B) : M B :=
  fun s =>
    match c s with
    | Ret a s' => k a s'
    | Panic => Panic
    | Blocked => Blocked
    end.

Definition panic {A : Type} : M A := fun _ => Panic.
Definition block {A : Type} : M A := fun _ => Blocked.

Notation "'do' x <- c ;; k" := (bind c (fun x => k))
  (at level 10, x name, c at level 99, k at level 200, only parsing).
Notation "'exec' c ;; k" := (bind c (fun _ => k))
  (at level 10, c at level 99, k at level 200, only parsing).

(** Dereferencing a registry pointer. *)
Definition load_reg (l : nat) : M KnownTypeRegistry :=
  fun s =>
    match regs s !! l with
    | Some reg => Ret reg s
    | None => Panic
    end.

Definition store_reg (l : nat) (reg : KnownTypeRegistry) : M unit :=
  fun s => Ret tt {| regs := <[l := reg]> (regs s); cells := cells s |}.

Definition new_reg (reg : KnownTypeRegistry) : M nat :=
  fun s => Ret (length (regs s)) {| regs := regs s ++ [reg]; cells := cells s |}.

(** [reflect.New(t)]: a new cell holding the zero value of [t]. *)
Definition reflect_New (t : rtype) : M nat :=
  fun s => Ret (length (cells s)) {| regs := regs s; cells := cells s ++ [Zero t] |}.

Definition load_cell (p : nat) : M value :=
  fun s =>
    match cells s !! p with
    | Some v => Ret v s
    | None => Panic
    end.

(** Assignment through a message pointer. *)
Definition store_cell (p : nat) (v : value) : M unit :=
  fun s => Ret tt {| regs := regs s; cells := <[p := v]> (cells s) |}.

(** *** r.mu *)

Definition Lock (l : nat) : M unit :=
  do reg <- load_reg l ;;
  if writer (mu reg) then block
  else match readers (mu reg) with
       | O => store_reg l (set_mu {| writer := true; readers := 0 |} reg)
       | S _ => block
       end.

Definition Unlock (l : nat) : M unit :=
  do reg <- load_reg l ;;
  if writer (mu reg)
  then store_reg l (set_mu {| writer := false; readers := readers (mu reg) |} reg)
  else panic.

Definition RLock (l : nat) : M unit :=
  do reg <- load_reg l ;;
  if writer (mu reg) then block
  else store_reg l (set_mu {| writer := false; readers := S (readers (mu reg)) |} reg).

Definition RUnlock (l : nat) : M unit :=
  do reg <- load_reg l ;;
  match readers (mu reg) with
  | O => panic
  | S n => store_reg l (set_mu {| writer := writer (mu reg); readers := n |} reg)
  end.

(** ** KnownTypeRegistry *)

Definition NewKnownTypeRegistryWithDefaults : M (option nat) :=
  do l <- new_reg {| excludeWkt := false; includeDefault := true;
                  mu := mu_zero; types := None |} ;;
  ret (Some l).

Definition NewKnownTypeRegistryWithoutWellKnownTypes : M (option nat) :=
  do l <- new_reg {| excludeWkt := true; includeDefault := false;
                  mu := mu_zero; types := None |} ;;
  ret (Some l).

(** [r.types[name] = t] *)
Definition types_assign (l : nat) (name : string) (t : option rtype) : M unit :=
  do reg <- load_reg l ;;
  match types reg with
  | None => panic
  | Some m => store_reg l (set_types (Some (<[name := t]> m)) reg)
  end.

Fixpoint add_each (l : nat) (kts : list (Message value)) : M unit :=
  match kts with
  | [] => ret tt
  | kt :: kts' =>
      exec types_assign l (MessageName kt) (reflect_TypeOf kt) ;;
      add_each l kts'
  end.

(** The deferred [Unlock] runs when the body returns; the body has no panic
    of its own. *)
Definition AddKnownType (r : option nat) (kts : list (Message value)) : M unit :=
  match r with
  | None => panic
  | Some l =>
      exec Lock l ;;
      do reg <- load_reg l ;;
      exec (match types reg with
       | None => store_reg l (set_types (Some ∅) reg)
       | Some _ => ret tt
       end) ;;
      exec add_each l kts ;;
      Unlock l
  end.

(** [t != nil && t.Implements(typeOfWkt)] *)
Definition wkt_only (t : option rtype) : option rtype :=
  match t with
  | Some t' => if ImplementsWkt t' then Some t' else None
  | None => None
  end.

(** An [interface{}] value as [reflect.Value.Interface] returns it: a
    message, or a value of a map type. *)
Inductive any : Type :=
| AMessage (m : Message value)
| AMap (key elem : rtype) (v : value).

(** [Interface()] of the pointer [reflect.New(e)] returned. *)
Definition Interface_of_pointer (e : rtype) (p : nat) : any :=
  AMessage (MPtr e (Some p)).

(** [Interface()] of a copy [v] of a value of type [t]. *)
Definition Interface_of_value (t : rtype) (v : value) : any :=
  match t with
  | TNamed n => AMessage (MVal n v)
  | TPtr e => AMessage (MPtr e None)
  | TMap k e => AMap k e v
  end.

(** The unchecked type assertion [x.(proto.Message)], which panics on a
    value whose type does not implement the interface. *)
Definition assert_Message (x : any) : M (Message value) :=
  match x with
  | AMessage m => ret m
  | AMap _ _ _ => panic
  end.

(** The tail of [CreateIfKnown]: a new instance of the selected type. *)
Definition instantiate (msgType : option rtype) : M (Message value) :=
  match msgType with
  | None => ret MNil
  | Some t =>
      if Kind_is_Ptr t
      then match Elem t with
           | Some e =>
               do p <- reflect_New e ;;
               assert_Message (Interface_of_pointer e p)
           | None => panic
           end
      else do p <- reflect_New t ;;
           do v <- load_cell p ;;
           assert_Message (Interface_of_value t v)
  end.

Definition CreateIfKnown (r : option nat) (messageName : string) : M (Message value) :=
  do msgType <-
    match r with
    | None => ret (wkt_only (MessageType messageName))
    | Some l =>
        do reg <- load_reg l ;;
        let msgType :=
          if includeDefault reg then MessageType messageName
          else if negb (excludeWkt reg) then wkt_only (MessageType messageName)
          else None in
        match msgType with
        | Some _ => ret msgType
        | None =>
            exec RLock l ;;
            do reg' <- load_reg l ;;
            exec RUnlock l ;;
            ret (map_index (types reg') messageName)
        end
    end ;;
  instantiate msgType.

(** ** MessageFactory *)

(** Modelled from the spec: the generic message constructors of
    dynamic_message.go, outside message_factory.go.
    [newMessageWithMessageFactory] builds "a generic message bound to this
    descriptor and carrying a back-reference to this same factory";
    [dynamic_NewMessage] is the "context-free default constructor that
    always produces a generic message (no known-type shortcut, no extension
    knowledge)". *)
Definition newMessageWithMessageFactory (md : MessageDescriptor)
    (f : option MessageFactory) : Message value :=
  MDyn md f.

Definition dynamic_NewMessage (md : MessageDescriptor) : Message value :=
  newMessageWithMessageFactory md None.

Definition NewMessage (f : option MessageFactory) (md : MessageDescriptor)
    : M (Message value) :=
  match f with
  | None => ret (dynamic_NewMessage md)
  | Some fa =>
      do m <- CreateIfKnown (ktr fa) (GetFullyQualifiedName md) ;;
      if negb (is_nil m) then ret m
      else ret (newMessageWithMessageFactory md f)
  end.

End Broker.

Arguments Ret {L A} a s.
Arguments Panic {L A}.
Arguments Blocked {L A}.

(** ** Vocabulary of the statements *)

Section Vocabulary.

Context `{L : Linked}.

(** The type [reflect.New] is applied to when [t] is instantiated. *)
Definition pointee (t : rtype) : rtype :=
  match t with
  | TPtr e => e
  | TNamed _ => t
  | TMap _ _ => t
  end.

(** The instance of [t] whose new cell is at address [p]; a map type has
    none. *)
Definition instance_at (t : rtype) (p : nat) : Message value :=
  match t with
  | TPtr e => MPtr e (Some p)
  | TNamed n => MVal n (Zero t)
  | TMap _ _ => MNil
  end.

(** The store after one more zeroed cell for an instance of [t]. *)
Definition grown (t : rtype) (s : Store) : Store :=
  {| regs := regs s; cells := cells s ++ [Zero (pointee t)] |}.

(** What the compiled-in steps of [CreateIfKnown] select on a non-nil
    registry, before the registered mapping is looked at. *)
Definition select_compiled (reg : KnownTypeRegistry) (name : string)
    : option rtype :=
  if includeDefault reg then MessageType name
  else if negb (excludeWkt reg) then wkt_only (MessageType name)
  else None.

(** The decision of [CreateIfKnown] as a function of the registries alone:
    the selected type (or none), a panic on a registry that is not there,
    or waiting for a writer. *)
Inductive resolution : Type :=
| Selected (msgType : option rtype)
| Unallocated
| Waits.

Definition resolve (r : option nat) (name : string)
    (rs : list KnownTypeRegistry) : resolution :=
  match r with
  | None => Selected (wkt_only (MessageType name))
  | Some l =>
      match rs !! l with
      | None => Unallocated
      | Some reg =>
          match select_compiled reg name with
          | Some t => Selected (Some t)
          | None =>
              if writer (mu reg) then Waits
              else Selected (map_index (types reg) name)
          end
      end
  end.

(** No writer holds the lock of the registry [r] points to. *)
Definition readable (r : option nat) (s : Store) : Prop :=
  match r with
  | None => True
  | Some l => ∃ reg, regs s !! l = Some reg ∧ writer (mu reg) = false
  end.

(** The map after the assignments of [AddKnownType]'s loop. *)
Definition assign_all (kts : list (Message value))
    (m : gmap string (option rtype)) : gmap string (option rtype) :=
  foldl (fun acc kt => <[MessageName kt := reflect_TypeOf kt]> acc) m kts.

(** The last instance of [kts] that reports the name [name]. *)
Definition last_named (name : string) (kts : list (Message value))
    : option (Message value) :=
  last (filter (fun kt => MessageName kt = name) kts).

(** The registry after [AddKnownType(kts...)]. *)
Definition registered (kts : list (Message value)) (reg : KnownTypeRegistry)
    : KnownTypeRegistry :=
  set_types (Some (assign_all kts (default ∅ (types reg)))) reg.

Definition with_regs (rs : list KnownTypeRegistry) (s : Store) : Store :=
  {| regs := rs; cells := cells s |}.

(** The same outcome with the registries of the final store replaced. *)
Definition outcome_with_regs {A : Type} (rs : list KnownTypeRegistry)
    (o : outcome A) : outcome A :=
  match o with
  | Ret a s => Ret a (with_regs rs s)
  | Panic => Panic
  | Blocked => Blocked
  end.

(** What a caller learns from a lookup, apart from the address of the new
    instance. *)
Inductive answer : Type :=
| Known (t : rtype)
| Absent
| Panics
| Blocks.

Definition answer_of (o : outcome (Message value)) : answer :=
  match o with
  | Ret m _ =>
      match reflect_TypeOf m with
      | Some t => Known t
      | None => Absent
      end
  | Panic => Panics
  | Blocked => Blocks
  end.

(** A sequence of lookups on one registry. *)
Fixpoint CreateIfKnown_each (r : option nat) (names : list string)
    : M (list (Message value)) :=
  match names with
  | [] => ret []
  | name :: names' =>
      bind (CreateIfKnown r name) (fun m =>
      bind (CreateIfKnown_each r names') (fun ms =>
      ret (m :: ms)))
  end.



End Vocabulary.

(** ** The remaining constructor, and vocabulary for how the operations
    compose *)

Section Composition.

Context `{L : Linked}.

(** [NewExtensionRegistryWithDefaults] belongs to extension_registry.go and
    only its result is passed on, so it is a parameter here.  Go evaluates
    the two arguments from left to right. *)
Definition NewMessageFactoryWithDefaults
    (NewExtensionRegistryWithDefaults : M (option nat))
    : M (option MessageFactory) :=
  bind NewExtensionRegistryWithDefaults (fun er =>
  bind NewKnownTypeRegistryWithDefaults (fun ktr =>
  ret (NewMessageFactoryWithRegistries er ktr))).

(** The store after [AddKnownType(kts...)] on the registry at [l]. *)
Definition after_registering (l : nat) (kts : list (Message value))
    (reg : KnownTypeRegistry) (s : Store) : Store :=
  with_regs (<[l := registered kts reg]> (regs s)) s.

(** What the registered mapping holds for [name] once [kts] are added. *)
Definition registered_type (kts : list (Message value))
    (reg : KnownTypeRegistry) (name : string) : option rtype :=
  match last_named name kts with
  | Some kt => reflect_TypeOf kt
  | None => map_index (types reg) name
  end.

(** Two values that [AddKnownType] cannot tell apart. *)
Definition same_registration (a b : Message value) : Prop :=
  MessageName a = MessageName b ∧ reflect_TypeOf a = reflect_TypeOf b.

(** The same registry in another mode. *)
Definition with_flags (exclude include : bool) (reg : KnownTypeRegistry)
    : KnownTypeRegistry :=
  {| excludeWkt := exclude; includeDefault := include;
     mu := mu reg; types := types reg |}.

(** The store with one more registry, as a constructor leaves it. *)
Definition with_new_reg (reg : KnownTypeRegistry) (s : Store) : Store :=
  with_regs (regs s ++ [reg]) s.

(** The answer of the registry at [l] for [name] if its flags were
    [exclude] and [include]. *)
Definition answer_in_mode (exclude include : bool) (l : nat)
    (reg : KnownTypeRegistry) (name : string) (s : Store) : answer :=
  answer_of (CreateIfKnown (Some l) name
               (with_regs (<[l := with_flags exclude include reg]> (regs s)) s)).

Definition is_known (a : answer) : bool :=
  match a with
  | Known _ => true
  | _ => false
  end.

End Composition.

(** ** A small linked program

    Two well-known types, one compiled-in type that is not well known, a
    compiled-in type used by value, the map type of a map entry, and user
    types that are not compiled in. *)

Module Demo.

Fixpoint assoc {A : Type} (k : string) (l : list (string * A)) : option A :=
  match l with
  | [] => None
  | (k', a) :: l' => if String.eqb k k' then Some a else assoc k l'
  end.

Definition ts_name : string := "google.protobuf.Timestamp".

Definition tTimestamp : rtype := TPtr (TNamed "timestamp.Timestamp").
Definition tDuration : rtype := TPtr (TNamed "duration.Duration").
Definition tFoo : rtype := TPtr (TNamed "pkg.Foo").
Definition tFlat : rtype := TNamed "pkg.Flat".
Definition tFieldsEntry : rtype :=
  TMap (TNamed "string") (TPtr (TNamed "structpb.Value")).
Definition fields_entry_name : string := "google.protobuf.Struct.FieldsEntry".
Definition tBar : rtype := TPtr (TNamed "pkg.Bar").
Definition tShadow : rtype := TPtr (TNamed "shadow.Timestamp").

Definition protoTypes : list (string * rtype) :=
  [ ("google.protobuf.Timestamp", tTimestamp);
    ("google.protobuf.Duration", tDuration);
    ("pkg.Foo", tFoo);
    ("pkg.Flat", tFlat);
    (fields_entry_name, tFieldsEntry) ].

(** Names by struct; [shadow.Timestamp] is a user struct that reports the
    name of a well-known type. *)
Definition structNames : list (string * string) :=
  [ ("timestamp.Timestamp", "google.protobuf.Timestamp");
    ("duration.Duration", "google.protobuf.Duration");
    ("shadow.Timestamp", "google.protobuf.Timestamp");
    ("pkg.Foo", "pkg.Foo");
    ("pkg.Bar", "pkg.Bar");
    ("pkg.Flat", "pkg.Flat") ].

Definition fields : Type := list (string * nat).

Definition name_of (m : Message fields) : string :=
  match m with
  | MNil => ""
  | MPtr (TNamed n) _ => default "" (assoc n structNames)
  | MPtr (TPtr _) _ => ""
  | MPtr (TMap _ _) _ => ""
  | MVal n _ => default "" (assoc n structNames)
  | MDyn md _ => GetFullyQualifiedName md
  end.

Definition is_wkt (t : rtype) : bool :=
  match t with
  | TPtr (TNamed n) =>
      String.eqb n "timestamp.Timestamp" || String.eqb n "duration.Duration"
  | _ => false
  end.

Definition is_wkt_Message (t : rtype) : is_wkt t = true → ImplementsMessage t = true :=
  match t with
  | TNamed _ => fun _ => eq_refl
  | TPtr _ => fun _ => eq_refl
  | TMap _ _ => fun H => H
  end.

Definition linked : Linked :=
  {| value := fields;
     Zero := fun _ => [];
     MessageType := fun name => assoc name protoTypes;
     ImplementsWkt := is_wkt;
     MessageName := name_of;
     wkt_implements_Message := is_wkt_Message |}.

Definition store (rs : list KnownTypeRegistry) (cs : list fields) : @Store linked :=
  @mkStore linked rs cs.

Definition empty_store : @Store linked := store [] [].

(** A store with one registry at address 0. *)
Definition store_of (reg : KnownTypeRegistry) : @Store linked := store [reg] [].

Definition nil_Bar : Message fields := MPtr (TNamed "pkg.Bar") None.
Definition nil_Shadow : Message fields := MPtr (TNamed "shadow.Timestamp") None.

Definition default_with (m : gmap string (option rtype)) : KnownTypeRegistry :=
  {| excludeWkt := false; includeDefault := false; mu := mu_zero; types := Some m |}.

Definition excluding_with (m : gmap string (option rtype)) : KnownTypeRegistry :=
  {| excludeWkt := true; includeDefault := false; mu := mu_zero; types := Some m |}.

Definition including_with (m : gmap string (option rtype)) : KnownTypeRegistry :=
  {| excludeWkt := false; includeDefault := true; mu := mu_zero; types := Some m |}.

End Demo.

(** * Properties *)

Section Properties.

Context `{L : Linked}.

Implicit Types (s : Store) (reg : KnownTypeRegistry) (t : rtype)
  (name : string) (l p : nat) (m : Message value).

(** ** Instantiation *)

Lemma instantiate_None s : instantiate None s = Ret MNil s.
Proof. reflexivity. Qed.

Lemma instantiate_Some_if t s :
  instantiate (Some t) s
  = if ImplementsMessage t
    then Ret (instance_at t (length (cells s))) (grown t s)
    else Panic.
Proof.
  destruct t as [n | e | k e]; cbn; unfold bind, reflect_New, load_cell, ret; cbn.
  - rewrite lookup_app_r by lia. by rewrite Nat.sub_diag.
  - reflexivity.
  - rewrite lookup_app_r by lia. by rewrite Nat.sub_diag.
Qed.

Lemma instantiate_Some t s :
  ImplementsMessage t = true →
  instantiate (Some t) s = Ret (instance_at t (length (cells s))) (grown t s).
Proof. intros H. by rewrite instantiate_Some_if, H. Qed.

Lemma instantiate_not_Message t s :
  ImplementsMessage t = false → instantiate (Some t) s = Panic.
Proof. intros H. by rewrite instantiate_Some_if, H. Qed.

Lemma reflect_TypeOf_instance_at t p :
  ImplementsMessage t = true → reflect_TypeOf (instance_at t p) = Some t.
Proof. by destruct t. Qed.

Lemma is_nil_instance_at t p :
  ImplementsMessage t = true → is_nil (instance_at t p) = false.
Proof. by destruct t. Qed.

(** The dynamic type of a message implements [proto.Message]. *)
Lemma reflect_TypeOf_Message m t :
  reflect_TypeOf m = Some t → ImplementsMessage t = true.
Proof. destruct m; cbn; by intros [= <-]. Qed.

(** What the well-known test lets through is the type of a message. *)
Lemma wkt_only_Message (o : option rtype) t :
  wkt_only o = Some t → ImplementsMessage t = true.
Proof.
  unfold wkt_only. destruct o as [u |]; [| done].
  destruct (ImplementsWkt u) eqn:Hu; [| done].
  intros [= <-]. by apply wkt_implements_Message.
Qed.

(** ** Running computations step by step *)

Lemma bind_Ret {A B : Type} (c : M A) (k : A → M B) s a s' :
  c s = Ret a s' → bind c k s = k a s'.
Proof. unfold bind. by intros ->. Qed.

Lemma bind_Panic {A B : Type} (c : M A) (k : A → M B) s :
  c s = Panic → bind c k s = Panic.
Proof. unfold bind. by intros ->. Qed.

Lemma bind_Blocked {A B : Type} (c : M A) (k : A → M B) s :
  c s = Blocked → bind c k s = Blocked.
Proof. unfold bind. by intros ->. Qed.

Lemma load_reg_Some l reg s : regs s !! l = Some reg → load_reg l s = Ret reg s.
Proof. unfold load_reg. by intros ->. Qed.

Lemma load_reg_None l s : regs s !! l = None → load_reg l s = Panic.
Proof. unfold load_reg. by intros ->. Qed.

Lemma store_reg_Ret l reg s :
  store_reg l reg s = Ret tt (with_regs (<[l := reg]> (regs s)) s).
Proof. reflexivity. Qed.

Lemma regs_with_regs rs s : regs (with_regs rs s) = rs.
Proof. reflexivity. Qed.


Lemma with_regs_with_regs rs rs' s : with_regs rs (with_regs rs' s) = with_regs rs s.
Proof. reflexivity. Qed.

Lemma with_regs_id s : with_regs (regs s) s = s.
Proof. by destruct s. Qed.

Lemma lookup_stored l reg s :
  l < length (regs s) → regs (with_regs (<[l := reg]> (regs s)) s) !! l = Some reg.
Proof. intros H. cbn. by apply list_lookup_insert_eq. Qed.

(** ** The registry's lock *)



Lemma RLock_Ret l reg s :
  regs s !! l = Some reg → writer (mu reg) = false →
  RLock l s
  = Ret tt (with_regs (<[l := set_mu {| writer := false; readers := S (readers (mu reg)) |} reg]>
                         (regs s)) s).
Proof.
  intros Hl Hw. unfold RLock. rewrite (bind_Ret _ _ _ _ _ (load_reg_Some _ _ _ Hl)).
  by rewrite Hw.
Qed.

Lemma RLock_Blocked l reg s :
  regs s !! l = Some reg → writer (mu reg) = true → RLock l s = Blocked.
Proof.
  intros Hl Hw. unfold RLock. rewrite (bind_Ret _ _ _ _ _ (load_reg_Some _ _ _ Hl)).
  by rewrite Hw.
Qed.

Lemma RUnlock_Ret l reg n s :
  regs s !! l = Some reg → readers (mu reg) = S n →
  RUnlock l s
  = Ret tt (with_regs (<[l := set_mu {| writer := writer (mu reg); readers := n |} reg]>
                         (regs s)) s).
Proof.
  intros Hl Hn. unfold RUnlock. rewrite (bind_Ret _ _ _ _ _ (load_reg_Some _ _ _ Hl)).
  by rewrite Hn.
Qed.

Lemma Lock_Ret l reg s :
  regs s !! l = Some reg → mu reg = mu_zero →
  Lock l s
  = Ret tt (with_regs (<[l := set_mu {| writer := true; readers := 0 |} reg]> (regs s)) s).
Proof.
  intros Hl Hmu. unfold Lock. rewrite (bind_Ret _ _ _ _ _ (load_reg_Some _ _ _ Hl)).
  by rewrite Hmu.
Qed.

Lemma Unlock_Ret l reg s :
  regs s !! l = Some reg → writer (mu reg) = true →
  Unlock l s
  = Ret tt (with_regs (<[l := set_mu {| writer := false; readers := readers (mu reg) |} reg]>
                         (regs s)) s).
Proof.
  intros Hl Hw. unfold Unlock. rewrite (bind_Ret _ _ _ _ _ (load_reg_Some _ _ _ Hl)).
  by rewrite Hw.
Qed.

(** A read of the registered mapping under the read lock returns the
    mapping and leaves the store as it was. *)
Lemma read_locked {A : Type} (k : KnownTypeRegistry → M A) l reg s :
  regs s !! l = Some reg → writer (mu reg) = false →
  bind (RLock l) (fun _ => bind (load_reg l) (fun reg' =>
    bind (RUnlock l) (fun _ => k reg'))) s
  = k (set_mu {| writer := false; readers := S (readers (mu reg)) |} reg) s.
Proof.
  intros Hl Hw. pose proof (lookup_lt_Some _ _ _ Hl) as Hlt.
  rewrite (bind_Ret _ _ _ _ _ (RLock_Ret _ _ _ Hl Hw)).
  rewrite (bind_Ret _ _ _ _ _ (load_reg_Some _ _ _ (lookup_stored _ _ _ Hlt))).
  erewrite bind_Ret; last first.
  { eapply RUnlock_Ret; [by apply lookup_stored | reflexivity]. }
  f_equal. rewrite regs_with_regs, with_regs_with_regs, list_insert_insert_eq.
  cbn [set_mu writer readers mu excludeWkt includeDefault types].
  transitivity (with_regs (regs s) s); [| apply with_regs_id].
  f_equal. apply list_insert_id.
  rewrite Hl. f_equal. destruct reg as [? ? [w n] ?]; cbn in *. by subst.
Qed.

(** ** CreateIfKnown, case by case *)

Lemma CreateIfKnown_nil name s :
  CreateIfKnown None name s = instantiate (wkt_only (MessageType name)) s.
Proof. reflexivity. Qed.

Lemma CreateIfKnown_dangling l name s :
  regs s !! l = None → CreateIfKnown (Some l) name s = Panic.
Proof.
  intros H. unfold CreateIfKnown. apply bind_Panic, bind_Panic.
  by apply load_reg_None.
Qed.

Lemma CreateIfKnown_compiled l reg name t s :
  regs s !! l = Some reg → select_compiled reg name = Some t →
  CreateIfKnown (Some l) name s = instantiate (Some t) s.
Proof.
  intros Hl Hsel. unfold CreateIfKnown. erewrite bind_Ret; [reflexivity |].
  rewrite (bind_Ret _ _ _ _ _ (load_reg_Some _ _ _ Hl)).
  fold (select_compiled reg name). by rewrite Hsel.
Qed.

Lemma CreateIfKnown_registered l reg name s :
  regs s !! l = Some reg → select_compiled reg name = None →
  writer (mu reg) = false →
  CreateIfKnown (Some l) name s = instantiate (map_index (types reg) name) s.
Proof.
  intros Hl Hsel Hw. unfold CreateIfKnown. erewrite bind_Ret; [reflexivity |].
  rewrite (bind_Ret _ _ _ _ _ (load_reg_Some _ _ _ Hl)).
  fold (select_compiled reg name). rewrite Hsel.
  by rewrite (read_locked _ _ _ _ Hl Hw).
Qed.

Lemma CreateIfKnown_blocked l reg name s :
  regs s !! l = Some reg → select_compiled reg name = None →
  writer (mu reg) = true →
  CreateIfKnown (Some l) name s = Blocked.
Proof.
  intros Hl Hsel Hw. unfold CreateIfKnown. apply bind_Blocked.
  rewrite (bind_Ret _ _ _ _ _ (load_reg_Some _ _ _ Hl)).
  fold (select_compiled reg name). rewrite Hsel.
  apply bind_Blocked. by eapply RLock_Blocked.
Qed.

(** [CreateIfKnown] decides by [resolve] and then instantiates. *)
Lemma CreateIfKnown_resolve r name s :
  CreateIfKnown r name s
  = match resolve r name (regs s) with
    | Selected msgType => instantiate msgType s
    | Unallocated => Panic
    | Waits => Blocked
    end.
Proof.
  destruct r as [l |]; cbn [resolve]; [| apply CreateIfKnown_nil].
  destruct (regs s !! l) as [reg |] eqn:Hl; [| by apply CreateIfKnown_dangling].
  destruct (select_compiled reg name) as [t |] eqn:Hsel.
  { by eapply CreateIfKnown_compiled. }
  destruct (writer (mu reg)) eqn:Hw.
  - by eapply CreateIfKnown_blocked.
  - by eapply CreateIfKnown_registered.
Qed.

Lemma wkt_only_Some (o : option rtype) t :
  wkt_only o = Some t ↔ o = Some t ∧ ImplementsWkt t = true.
Proof.
  unfold wkt_only. destruct o as [u |]; [| by split; [| intros []]].
  destruct (ImplementsWkt u) eqn:Hu; split.
  - intros [= ->]. by split.
  - by intros [[= ->] _].
  - done.
  - intros [[= ->] Ht]. congruence.
Qed.

Lemma wkt_only_None (o : option rtype) :
  wkt_only o = None ↔ ∀ t, o = Some t → ImplementsWkt t = false.
Proof.
  unfold wkt_only. destruct o as [u |]; [| by split].
  destruct (ImplementsWkt u) eqn:Hu; split.
  - done.
  - intros H. specialize (H u eq_refl). congruence.
  - by intros _ t [= <-].
  - done.
Qed.

(** ** Resolution order *)

(** C1: in well-known-only mode (neither flag set), a name that is both a
    well-known compiled-in type and present in the registered mapping is
    instantiated from the compiled-in type, whatever the mapping holds and
    even while a writer holds the lock; the mapping decides only for names
    the compiled-in step selects nothing for. *)
Theorem compiled_in_wins_over_registered l reg name t t' s :
  regs s !! l = Some reg →
  excludeWkt reg = false → includeDefault reg = false →
  MessageType name = Some t → ImplementsWkt t = true →
  map_index (types reg) name = Some t' →
  CreateIfKnown (Some l) name s = Ret (instance_at t (length (cells s))) (grown t s)
  ∧ (∀ name', wkt_only (MessageType name') = None → writer (mu reg) = false →
       CreateIfKnown (Some l) name' s = instantiate (map_index (types reg) name') s).
Proof.
  intros Hl Hex Hin Ht Hwkt _. split.
  - rewrite <- instantiate_Some by (by apply wkt_implements_Message).
    eapply CreateIfKnown_compiled; [done |].
    unfold select_compiled. rewrite Hin, Hex. cbn. by apply wkt_only_Some.
  - intros name' Hnone Hw. eapply CreateIfKnown_registered; [done | | done].
    unfold select_compiled. by rewrite Hin, Hex.
Qed.

(** C2: for a name that is not registered, the nil registry and a registry
    with neither flag set (the zero value among them) give the same outcome:
    a new instance of the compiled-in type when that type exists and
    implements the well-known-type interface, and nil otherwise. *)
Theorem nil_and_zero_registry_agree l reg name s :
  regs s !! l = Some reg →
  excludeWkt reg = false → includeDefault reg = false →
  writer (mu reg) = false →
  map_index (types reg) name = None →
  ∃ m s',
    CreateIfKnown None name s = Ret m s'
    ∧ CreateIfKnown (Some l) name s = Ret m s'
    ∧ (is_nil m = false ↔ ∃ t, MessageType name = Some t ∧ ImplementsWkt t = true)
    ∧ (∀ t, MessageType name = Some t → ImplementsWkt t = true →
         m = instance_at t (length (cells s)) ∧ s' = grown t s)
    ∧ (is_nil m = true → m = MNil ∧ s' = s).
Proof.
  intros Hl Hex Hin Hw Hreg.
  assert (CreateIfKnown (Some l) name s = CreateIfKnown None name s) as Heq.
  { rewrite !CreateIfKnown_resolve. cbn [resolve]. rewrite Hl.
    unfold select_compiled. rewrite Hin, Hex. cbn.
    destruct (wkt_only (MessageType name)); [done |]. by rewrite Hw, Hreg. }
  rewrite Heq, CreateIfKnown_nil.
  destruct (wkt_only (MessageType name)) as [t |] eqn:Hsel.
  - pose proof (wkt_only_Message _ _ Hsel) as Hmsg.
    apply wkt_only_Some in Hsel as [Ht Hwkt].
    exists (instance_at t (length (cells s))), (grown t s).
    rewrite instantiate_Some, is_nil_instance_at by done. split_and!; try done.
    + naive_solver.
    + intros t2 Ht2 _. by simplify_eq.
  - exists MNil, s. rewrite instantiate_None. split_and!; try done.
    + split; [done |]. intros (t & Ht & Hwkt).
      rewrite wkt_only_None in Hsel. specialize (Hsel t Ht). congruence.
    + intros t Ht Hwkt. rewrite wkt_only_None in Hsel.
      specialize (Hsel t Ht). congruence.
Qed.

(** C5: a registry that includes all compiled-in types selects whatever
    [proto.MessageType] finds for the name, with no test of the well-known
    interface, whether or not the well-known types are excluded, and without
    looking at the registered mapping or its lock.  The selected type is
    then instantiated: the call returns a new instance when it is the type
    of a message, well known or not, and panics at the type assertion when
    it is the map type of a map entry, which is selected all the same.
    Only a name that is not compiled in is looked up in the mapping. *)
Theorem include_all_compiled_unconditional l reg name s :
  regs s !! l = Some reg → includeDefault reg = true →
  (∀ t, MessageType name = Some t →
     CreateIfKnown (Some l) name s
     = if ImplementsMessage t
       then Ret (instance_at t (length (cells s))) (grown t s)
       else Panic)
  ∧ (MessageType name = None → writer (mu reg) = false →
       CreateIfKnown (Some l) name s = instantiate (map_index (types reg) name) s).
Proof.
  intros Hl Hin. split.
  - intros t Ht. rewrite <- instantiate_Some_if.
    eapply CreateIfKnown_compiled; [done |].
    unfold select_compiled. by rewrite Hin.
  - intros Hnone Hw. eapply CreateIfKnown_registered; [done | | done].
    unfold select_compiled. by rewrite Hin.
Qed.

(** ** New instances and the frame of a lookup *)

Lemma regs_grown t s : regs (grown t s) = regs s.
Proof. reflexivity. Qed.

Lemma cells_grown t s : cells (grown t s) = cells s ++ [Zero (pointee t)].
Proof. reflexivity. Qed.

(** A lookup that returns has selected the type of a message or nothing,
    and that decides the message and the final store. *)
Lemma CreateIfKnown_Ret_inv r name s m s' :
  CreateIfKnown r name s = Ret m s' →
  (resolve r name (regs s) = Selected None ∧ m = MNil ∧ s' = s)
  ∨ (∃ t, resolve r name (regs s) = Selected (Some t)
          ∧ ImplementsMessage t = true
          ∧ m = instance_at t (length (cells s)) ∧ s' = grown t s).
Proof.
  rewrite CreateIfKnown_resolve.
  destruct (resolve r name (regs s)) as [[t |] | |]; try done.
  - rewrite instantiate_Some_if. destruct (ImplementsMessage t) eqn:Hmsg; [| done].
    intros [= <- <-]. right. by exists t.
  - rewrite instantiate_None. intros [= <- <-]. by left.
Qed.

(** A lookup returns an instance exactly when it selects the type of a
    message. *)
Lemma CreateIfKnown_known_iff r name s :
  (∃ m s', CreateIfKnown r name s = Ret m s' ∧ is_nil m = false)
  ↔ (∃ t, resolve r name (regs s) = Selected (Some t) ∧ ImplementsMessage t = true).
Proof.
  split.
  - intros (m & s' & Hc & Hnn).
    apply CreateIfKnown_Ret_inv in Hc as [(_ & -> & _) | (t & Hres & Hmsg & _)]; [done |].
    by exists t.
  - intros (t & Hres & Hmsg). rewrite CreateIfKnown_resolve, Hres, instantiate_Some by done.
    eexists _, _. split; [done |]. by apply is_nil_instance_at.
Qed.

Lemma CreateIfKnown_regs r name s m s' :
  CreateIfKnown r name s = Ret m s' → regs s' = regs s.
Proof.
  intros H.
  apply CreateIfKnown_Ret_inv in H as [(_ & _ & ->) | (t & _ & _ & _ & ->)]; done.
Qed.

Lemma answer_of_resolve r name s :
  answer_of (CreateIfKnown r name s)
  = match resolve r name (regs s) with
    | Selected (Some t) => if ImplementsMessage t then Known t else Panics
    | Selected None => Absent
    | Unallocated => Panics
    | Waits => Blocks
    end.
Proof.
  rewrite CreateIfKnown_resolve.
  destruct (resolve r name (regs s)) as [[t |] | |]; try done.
  rewrite instantiate_Some_if. destruct (ImplementsMessage t) eqn:Hmsg; [| done].
  cbn. by rewrite reflect_TypeOf_instance_at.
Qed.

Lemma resolve_readable r name s :
  readable r s → ∃ msgType, resolve r name (regs s) = Selected msgType.
Proof.
  destruct r as [l |]; cbn; [| eauto].
  intros (reg & -> & Hw). rewrite Hw.
  destruct (select_compiled reg name); eauto.
Qed.

Lemma readable_regs r s s' : regs s' = regs s → readable r s → readable r s'.
Proof. intros Hregs. destruct r as [l |]; [| done]. cbn. by rewrite Hregs. Qed.

(** A lookup returns when no writer holds the lock and the type it selects,
    if any, is the type of a message. *)
Lemma CreateIfKnown_returns r name s :
  readable r s →
  (∀ t, resolve r name (regs s) = Selected (Some t) → ImplementsMessage t = true) →
  ∃ m s', CreateIfKnown r name s = Ret m s'.
Proof.
  intros Hr Hmsg. destruct (resolve_readable r name s Hr) as [msgType Hres].
  rewrite CreateIfKnown_resolve, Hres. destruct msgType as [t |].
  - rewrite instantiate_Some by (by apply Hmsg). eauto.
  - rewrite instantiate_None. eauto.
Qed.

Lemma CreateIfKnown_each_regs r names s ms s' :
  CreateIfKnown_each r names s = Ret ms s' → regs s' = regs s.
Proof.
  revert s ms s'. induction names as [| name names IH]; intros s ms s'; cbn.
  - by intros [= _ <-].
  - unfold bind at 1. destruct (CreateIfKnown r name s) as [m s1 | |] eqn:H1; try done.
    unfold bind at 1. destruct (CreateIfKnown_each r names s1) as [ms' s2 | |] eqn:H2; try done.
    intros [= _ <-]. rewrite (IH _ _ _ H2). by eapply CreateIfKnown_regs.
Qed.

Lemma CreateIfKnown_each_returns r names s :
  readable r s →
  (∀ name t, name ∈ names → resolve r name (regs s) = Selected (Some t) →
     ImplementsMessage t = true) →
  ∃ ms s', CreateIfKnown_each r names s = Ret ms s' ∧ length ms = length names.
Proof.
  revert s. induction names as [| name names IH]; intros s Hr Hmsg; cbn.
  - by exists [], s.
  - destruct (CreateIfKnown_returns r name s Hr) as (m & s1 & H1).
    { intros t. apply Hmsg. by left. }
    pose proof (CreateIfKnown_regs _ _ _ _ _ H1) as Hregs.
    destruct (IH s1) as (ms & s2 & H2 & Hlen).
    { by eapply readable_regs. }
    { intros name' t Hin. rewrite Hregs. apply Hmsg. by right. }
    exists (m :: ms), s2. rewrite (bind_Ret _ _ _ _ _ H1), (bind_Ret _ _ _ _ _ H2).
    split; [done |]. cbn. by rewrite Hlen.
Qed.

Lemma CreateIfKnown_each_panics r names s name t :
  readable r s → name ∈ names →
  resolve r name (regs s) = Selected (Some t) → ImplementsMessage t = false →
  CreateIfKnown_each r names s = Panic.
Proof.
  revert s. induction names as [| name0 names IH]; intros s Hr Hin Hres Hmsg.
  - by apply elem_of_nil in Hin.
  - cbn. destruct (resolve_readable r name0 s Hr) as [o Hres0].
    pose proof (CreateIfKnown_resolve r name0 s) as Hc. rewrite Hres0 in Hc.
    assert (∀ m s1, CreateIfKnown r name0 s = Ret m s1 →
              bind (CreateIfKnown_each r names) (fun ms => ret (m :: ms)) s1 = Panic)
      as Hrest.
    { intros m s1 H1. pose proof (CreateIfKnown_regs _ _ _ _ _ H1) as Hregs.
      apply elem_of_cons in Hin as [-> | Hin].
      - rewrite CreateIfKnown_resolve, Hres, instantiate_not_Message in H1; done.
      - apply bind_Panic. apply IH; [by eapply readable_regs | done | by rewrite Hregs | done]. }
    destruct o as [t0 |].
    + rewrite instantiate_Some_if in Hc. destruct (ImplementsMessage t0).
      * rewrite (bind_Ret _ _ _ _ _ Hc). by eapply Hrest.
      * by apply bind_Panic.
    + rewrite instantiate_None in Hc. rewrite (bind_Ret _ _ _ _ _ Hc). by eapply Hrest.
Qed.

(** C6: a name is known when the lookup selects for it the type of a
    message (which is exactly when the lookup returns an instance).  For
    such a name two lookups in a row both return, and each of the two
    instances is built from a cell of its own that did not exist before the
    call and holds the zero value: a pointer to that cell for a pointer
    type, a copy of its zero value for a value type.  The two cells are
    different, no cell that existed before is touched, and an assignment
    through either instance leaves the cell of the other as it was. *)
Theorem successive_instances_are_fresh r name t s :
  resolve r name (regs s) = Selected (Some t) → ImplementsMessage t = true →
  ∃ m1 s1 m2 s2,
    CreateIfKnown r name s = Ret m1 s1
    ∧ CreateIfKnown r name s1 = Ret m2 s2
    ∧ is_nil m1 = false ∧ is_nil m2 = false
    ∧ m1 = instance_at t (length (cells s)) ∧ s1 = grown t s
    ∧ m2 = instance_at t (length (cells s1)) ∧ s2 = grown t s1
    ∧ cells s !! length (cells s) = None
    ∧ cells s1 !! length (cells s1) = None
    ∧ cells s2 !! length (cells s) = Some (Zero (pointee t))
    ∧ cells s2 !! length (cells s1) = Some (Zero (pointee t))
    ∧ length (cells s) ≠ length (cells s1)
    ∧ (∀ p v, cells s !! p = Some v → cells s2 !! p = Some v)
    ∧ (Kind t = Ptr →
         m1 = MPtr (pointee t) (Some (length (cells s)))
         ∧ m2 = MPtr (pointee t) (Some (length (cells s1)))
         ∧ m1 ≠ m2)
    ∧ (Kind t = Other →
         ∃ n, t = TNamed n ∧ m1 = MVal n (Zero t) ∧ m2 = MVal n (Zero t))
    ∧ (∀ v s3, store_cell (length (cells s)) v s2 = Ret tt s3 →
         cells s3 !! length (cells s) = Some v
         ∧ cells s3 !! length (cells s1) = Some (Zero (pointee t)))
    ∧ (∀ v s3, store_cell (length (cells s1)) v s2 = Ret tt s3 →
         cells s3 !! length (cells s1) = Some v
         ∧ cells s3 !! length (cells s) = Some (Zero (pointee t))).
Proof.
  intros Hres Hmsg.
  exists (instance_at t (length (cells s))), (grown t s),
         (instance_at t (length (cells (grown t s)))), (grown t (grown t s)).
  assert (length (cells (grown t s)) = S (length (cells s))) as Hlen.
  { rewrite cells_grown, length_app. cbn. lia. }
  assert (cells (grown t (grown t s)) !! length (cells s) = Some (Zero (pointee t))) as Hc1.
  { rewrite !cells_grown. rewrite lookup_app_l by (rewrite length_app; cbn; lia).
    rewrite lookup_app_r by lia. by rewrite Nat.sub_diag. }
  assert (cells (grown t (grown t s)) !! length (cells (grown t s))
          = Some (Zero (pointee t))) as Hc2.
  { rewrite (cells_grown t (grown t s)). rewrite lookup_app_r by lia.
    by rewrite Nat.sub_diag. }
  split_and!; try done.
  - rewrite CreateIfKnown_resolve, Hres. by apply instantiate_Some.
  - rewrite CreateIfKnown_resolve, regs_grown, Hres. by apply instantiate_Some.
  - by apply is_nil_instance_at.
  - by apply is_nil_instance_at.
  - apply lookup_ge_None. lia.
  - apply lookup_ge_None. lia.
  - lia.
  - intros p v Hp. rewrite !cells_grown.
    pose proof (lookup_lt_Some _ _ _ Hp).
    rewrite !lookup_app_l; [done | lia | rewrite length_app; lia].
  - destruct t as [n | e | k e]; [done | | done]. intros _. split_and!; try done.
    rewrite Hlen. cbn. intros [=]. lia.
  - destruct t as [n | e | k e]; [| done | done]. intros _. by exists n.
  - intros v s3 [= <-]. cbn [cells]. split.
    + apply list_lookup_insert_eq. rewrite !length_app. cbn. lia.
    + rewrite list_lookup_insert_ne by (rewrite Hlen; lia). exact Hc2.
  - intros v s3 [= <-]. cbn [cells grown] in *. split.
    + apply list_lookup_insert_eq. rewrite !length_app. cbn. lia.
    + rewrite list_lookup_insert_ne by (rewrite Hlen; lia). exact Hc1.
Qed.

(** C10: a lookup changes no registry: after any sequence of lookups that
    returns, every registry in the store (flags, lock and registered
    mapping) is what it was, so every later lookup, on any registry and of
    any name, gives the answer it would have given before.  The sequence
    does return when no writer holds the lock of the registry and no name
    in it selects a type that fails the type assertion; with such a name
    in it, it panics. *)
Theorem CreateIfKnown_leaves_registries r names s :
  (∀ ms s', CreateIfKnown_each r names s = Ret ms s' →
     regs s' = regs s
     ∧ ∀ r' name',
         answer_of (CreateIfKnown r' name' s') = answer_of (CreateIfKnown r' name' s))
  ∧ (readable r s →
     (∀ name t, name ∈ names → resolve r name (regs s) = Selected (Some t) →
        ImplementsMessage t = true) →
     ∃ ms s', CreateIfKnown_each r names s = Ret ms s' ∧ length ms = length names)
  ∧ (readable r s →
     ∀ name t, name ∈ names → resolve r name (regs s) = Selected (Some t) →
       ImplementsMessage t = false →
       CreateIfKnown_each r names s = Panic).
Proof.
  split_and!.
  - intros ms s' H. pose proof (CreateIfKnown_each_regs _ _ _ _ _ H) as Hregs.
    split; [done |]. intros r' name'. by rewrite !answer_of_resolve, Hregs.
  - apply CreateIfKnown_each_returns.
  - intros Hr name t. by apply CreateIfKnown_each_panics.
Qed.

(** ** AddKnownType *)


Lemma set_types_id reg : set_types (types reg) reg = reg.
Proof. by destruct reg. Qed.

Lemma with_regs_insert_insert l (a b : KnownTypeRegistry) s :
  with_regs (<[l := a]> (regs (with_regs (<[l := b]> (regs s)) s)))
            (with_regs (<[l := b]> (regs s)) s)
  = with_regs (<[l := a]> (regs s)) s.
Proof. unfold with_regs. cbn. by rewrite list_insert_insert_eq. Qed.

Lemma types_assign_Ret l reg (mp : gmap string (option rtype)) name (o : option rtype) s :
  regs s !! l = Some reg → types reg = Some mp →
  types_assign l name o s
  = Ret tt (with_regs (<[l := set_types (Some (<[name := o]> mp)) reg]> (regs s)) s).
Proof.
  intros Hl Ht. unfold types_assign.
  rewrite (bind_Ret _ _ _ _ _ (load_reg_Some _ _ _ Hl)). by rewrite Ht.
Qed.

Lemma add_each_Ret l kts : ∀ reg (mp : gmap string (option rtype)) s,
  regs s !! l = Some reg → types reg = Some mp →
  add_each l kts s
  = Ret tt (with_regs (<[l := set_types (Some (assign_all kts mp)) reg]> (regs s)) s).
Proof.
  induction kts as [| kt kts IH]; intros reg mp s Hl Ht; cbn.
  - unfold ret. rewrite <- Ht, set_types_id, list_insert_id by done.
    by rewrite with_regs_id.
  - pose proof (lookup_lt_Some _ _ _ Hl) as Hlt.
    rewrite (bind_Ret _ _ _ _ _ (types_assign_Ret _ _ _ _ _ _ Hl Ht)).
    erewrite IH; [| by apply lookup_stored | reflexivity].
    by rewrite with_regs_insert_insert.
Qed.

Lemma AddKnownType_Ret l reg kts s :
  regs s !! l = Some reg → mu reg = mu_zero →
  AddKnownType (Some l) kts s
  = Ret tt (with_regs (<[l := registered kts reg]> (regs s)) s).
Proof.
  intros Hl Hmu. pose proof (lookup_lt_Some _ _ _ Hl) as Hlt.
  unfold AddKnownType.
  rewrite (bind_Ret _ _ _ _ _ (Lock_Ret _ _ _ Hl Hmu)).
  rewrite (bind_Ret _ _ _ _ _ (load_reg_Some _ _ _ (lookup_stored _ _ _ Hlt))).
  set (locked := set_mu {| writer := true; readers := 0 |} reg).
  set (s1 := with_regs (<[l := locked]> (regs s)) s).
  assert (∃ armed, (match types locked with
                    | Some _ => ret tt
                    | None => store_reg l (set_types (Some ∅) locked)
                    end) s1 = Ret tt (with_regs (<[l := armed]> (regs s)) s)
                   ∧ armed = set_types (Some (default ∅ (types reg))) locked)
    as (armed & Harm & Harmed).
  { exists (set_types (Some (default ∅ (types reg))) locked). split; [| done].
    subst locked s1. cbn [types set_mu].
    destruct (types reg) as [mp |] eqn:Ht; cbn [default].
    - unfold ret. do 2 f_equal. unfold set_types, set_mu. cbn. by rewrite Ht.
    - rewrite store_reg_Ret. by rewrite with_regs_insert_insert. }
  rewrite (bind_Ret _ _ _ _ _ Harm).
  assert (l < length (regs s)) as Hlt' by done.
  erewrite bind_Ret; last first.
  { eapply add_each_Ret; [by apply lookup_stored |]. by rewrite Harmed. }
  rewrite with_regs_insert_insert.
  erewrite Unlock_Ret; [| by apply lookup_stored | by rewrite Harmed].
  rewrite with_regs_insert_insert. do 3 f_equal.
  rewrite Harmed. subst locked. unfold registered, set_types, set_mu. cbn.
  by rewrite Hmu.
Qed.

Lemma assign_all_lookup kts : ∀ (mp : gmap string (option rtype)) name,
  assign_all kts mp !! name
  = match last_named name kts with
    | Some kt => Some (reflect_TypeOf kt)
    | None => mp !! name
    end.
Proof.
  induction kts as [| kt kts IH]; intros mp name; [done |].
  change (assign_all (kt :: kts) mp)
    with (assign_all kts (<[MessageName kt := reflect_TypeOf kt]> mp)).
  rewrite IH. unfold last_named. rewrite filter_cons.
  destruct (decide (MessageName kt = name)) as [Heq | Hne].
  - rewrite last_cons. destruct (last (filter _ kts)); [done |].
    by rewrite Heq, lookup_insert_eq.
  - destruct (last (filter _ kts)); [done |]. by rewrite lookup_insert_ne.
Qed.

Lemma last_named_None name kts :
  (∀ kt, kt ∈ kts → MessageName kt ≠ name) → last_named name kts = None.
Proof.
  intros H. unfold last_named.
  induction kts as [| kt kts IH]; [done |].
  rewrite filter_cons. destruct (decide (MessageName kt = name)) as [Heq | Hne].
  - exfalso. eapply H; [| done]. by left.
  - apply IH. intros kt' Hin. apply H. by right.
Qed.

Lemma map_index_registered kts reg name :
  map_index (types (registered kts reg)) name
  = match last_named name kts with
    | Some kt => reflect_TypeOf kt
    | None => map_index (types reg) name
    end.
Proof.
  cbn. rewrite assign_all_lookup.
  destruct (last_named name kts); [done |].
  destruct (types reg); cbn; [done |]. by rewrite lookup_empty.
Qed.

Lemma assign_all_twice kts (mp : gmap string (option rtype)) :
  assign_all kts (assign_all kts mp) = assign_all kts mp.
Proof.
  apply map_eq. intros name. rewrite !assign_all_lookup.
  by destruct (last_named name kts).
Qed.

Lemma registered_twice kts reg : registered kts (registered kts reg) = registered kts reg.
Proof. unfold registered. cbn. by rewrite assign_all_twice. Qed.

Lemma dom_assign_all kts : ∀ (mp : gmap string (option rtype)),
  dom mp ⊆ dom (assign_all kts mp).
Proof.
  induction kts as [| kt kts IH]; intros mp; [done |].
  change (assign_all (kt :: kts) mp)
    with (assign_all kts (<[MessageName kt := reflect_TypeOf kt]> mp)).
  etrans; [apply dom_insert_subseteq | apply IH].
Qed.

Lemma instantiate_with_regs (o : option rtype) rs s :
  instantiate o (with_regs rs s) = outcome_with_regs rs (instantiate o s).
Proof.
  destruct o as [t |]; [| done]. rewrite !instantiate_Some_if.
  by destruct (ImplementsMessage t).
Qed.

(** Registering leaves the decision for every name it does not mention. *)
Lemma resolve_registered l reg kts r name (rs : list KnownTypeRegistry) :
  rs !! l = Some reg →
  (∀ kt, kt ∈ kts → MessageName kt ≠ name) →
  resolve r name (<[l := registered kts reg]> rs) = resolve r name rs.
Proof.
  intros Hl Hother. destruct r as [l' |]; [| done]. cbn [resolve].
  destruct (decide (l = l')) as [<- | Hne].
  - rewrite list_lookup_insert_eq by eauto using lookup_lt_Some. rewrite Hl.
    change (select_compiled (registered kts reg) name) with (select_compiled reg name).
    change (mu (registered kts reg)) with (mu reg).
    by rewrite map_index_registered, last_named_None.
  - by rewrite list_lookup_insert_ne.
Qed.

(** C4: a registry that excludes the well-known types (and does not include
    all compiled-in types) answers from the registered mapping alone: nil
    for a name that is not registered, also when a compiled-in well-known
    type of that name exists, and a new instance of the registered type for
    a name that is.  The registered type is the type of a message whenever
    [AddKnownType] stored it, so that after registering a value the lookup
    of its name returns an instance of its type; a map type in the mapping,
    which no message has, would fail the type assertion. *)
Theorem excluded_wkt_only_if_registered l reg name s :
  regs s !! l = Some reg →
  excludeWkt reg = true → includeDefault reg = false →
  writer (mu reg) = false →
  (map_index (types reg) name = None →
     CreateIfKnown (Some l) name s = Ret MNil s)
  ∧ (∀ t', map_index (types reg) name = Some t' →
       CreateIfKnown (Some l) name s
       = if ImplementsMessage t'
         then Ret (instance_at t' (length (cells s))) (grown t' s)
         else Panic)
  ∧ (∀ kt t', mu reg = mu_zero → reflect_TypeOf kt = Some t' →
       bind (AddKnownType (Some l) [kt])
            (fun _ => CreateIfKnown (Some l) (MessageName kt)) s
       = Ret (instance_at t' (length (cells s)))
             (grown t' (after_registering l [kt] reg s))).
Proof.
  intros Hl Hex Hin Hw.
  assert (∀ reg' s', regs s' !! l = Some reg' →
            excludeWkt reg' = true → includeDefault reg' = false →
            writer (mu reg') = false → ∀ name',
            CreateIfKnown (Some l) name' s'
            = instantiate (map_index (types reg') name') s') as Heq.
  { intros reg' s' Hl' Hex' Hin' Hw' name'.
    eapply CreateIfKnown_registered; [done | | done].
    unfold select_compiled. by rewrite Hin', Hex'. }
  split_and!.
  - rewrite (Heq _ _ Hl Hex Hin Hw). by intros ->.
  - rewrite (Heq _ _ Hl Hex Hin Hw). intros t' ->. apply instantiate_Some_if.
  - intros kt t' Hmu Ht'.
    rewrite (bind_Ret _ _ _ _ _ (AddKnownType_Ret _ _ _ _ Hl Hmu)).
    fold (after_registering l [kt] reg s).
    rewrite (Heq (registered [kt] reg) (after_registering l [kt] reg s));
      [| apply lookup_stored; by eapply lookup_lt_Some | done | done | done].
    cbn [registered set_types types map_index assign_all foldl default].
    rewrite lookup_insert_eq. cbn [default]. rewrite Ht'. unfold id.
    by rewrite instantiate_Some by (by eapply reflect_TypeOf_Message).
Qed.

(** C7: on a registry whose lock is free, [AddKnownType] returns, leaves the
    flags, the lock, the other registries and all message cells as they
    were, and assigns each instance's type under the name the instance
    reports: afterwards a name maps to the type of the last listed instance
    that reports it, or to what it mapped to before when none does; no key
    is removed; a second call with the same instances changes nothing; and
    the lookup of any name none of the instances reports gives the same
    outcome as before. *)
Theorem AddKnownType_last_wins_and_only_adds l reg kts s :
  regs s !! l = Some reg → mu reg = mu_zero →
  ∃ s',
    AddKnownType (Some l) kts s = Ret tt s'
    ∧ regs s' = <[l := registered kts reg]> (regs s)
    ∧ cells s' = cells s
    ∧ excludeWkt (registered kts reg) = excludeWkt reg
    ∧ includeDefault (registered kts reg) = includeDefault reg
    ∧ mu (registered kts reg) = mu reg
    ∧ (∀ name,
         map_index (types (registered kts reg)) name
         = match last_named name kts with
           | Some kt => reflect_TypeOf kt
           | None => map_index (types reg) name
           end)
    ∧ dom (default ∅ (types reg)) ⊆ dom (default ∅ (types (registered kts reg)))
    ∧ AddKnownType (Some l) kts s' = Ret tt s'
    ∧ (∀ r name, (∀ kt, kt ∈ kts → MessageName kt ≠ name) →
         CreateIfKnown r name s' = outcome_with_regs (regs s') (CreateIfKnown r name s)).
Proof.
  intros Hl Hmu. pose proof (lookup_lt_Some _ _ _ Hl) as Hlt.
  exists (with_regs (<[l := registered kts reg]> (regs s)) s).
  split_and!; try done.
  - by apply AddKnownType_Ret.
  - apply map_index_registered.
  - cbn. apply dom_assign_all.
  - rewrite (AddKnownType_Ret l (registered kts reg)); [| by apply lookup_stored | done].
    by rewrite with_regs_insert_insert, registered_twice.
  - intros r name Hother. rewrite !CreateIfKnown_resolve, regs_with_regs.
    rewrite (resolve_registered _ _ _ _ _ _ Hl Hother).
    destruct (resolve r name (regs s)); try done.
    apply instantiate_with_regs.
Qed.

(** C8, as the code has it: [AddKnownType] checks nothing about the values
    it is given.  On a registry whose lock is free it returns for every list
    of values, the nil interface included, and files each of them under the
    name [proto.MessageName] reports for it; the one panic of its own is a
    call through a nil registry pointer. *)
Theorem AddKnownType_checks_nothing kts s :
  AddKnownType None kts s = Panic
  ∧ ∀ l reg, regs s !! l = Some reg → mu reg = mu_zero →
      AddKnownType (Some l) kts s
      = Ret tt (with_regs (<[l := registered kts reg]> (regs s)) s)
      ∧ ∀ kt, kt ∈ kts →
          is_Some (default ∅ (types (registered kts reg)) !! MessageName kt).
Proof.
  split; [done |]. intros l reg Hl Hmu. split; [by apply AddKnownType_Ret |].
  intros kt Hin. cbn. rewrite assign_all_lookup.
  destruct (last_named (MessageName kt) kts) eqn:Hlast; [done |].
  exfalso. unfold last_named in Hlast. apply last_None in Hlast.
  apply (filter_nil_not_elem_of _ _ kt) in Hlast; done.
Qed.

(** ** NewMessage *)


End Properties.

(** * Further properties of the code *)

Section Further.

Context `{L : Linked}.

Implicit Types (s : Store) (reg : KnownTypeRegistry) (t : rtype)
  (name : string) (l p : nat) (m : Message value)
  (kts : list (Message value)).

(** ** The constructors *)

Lemma new_reg_lookup reg s :
  regs (with_regs (regs s ++ [reg]) s) !! length (regs s) = Some reg.
Proof. cbn. rewrite lookup_app_r by lia. by rewrite Nat.sub_diag. Qed.

(** X1: [NewKnownTypeRegistryWithDefaults] returns the address of a new
    registry, after all existing ones, which stay as they are; a lookup on
    it instantiates exactly what [proto.MessageType] finds for the name: it
    returns an instance when that is the type of a message, panics at the
    type assertion when it is a map type, and returns nil for every name
    that is not compiled in. *)
Theorem defaults_registry_knows_the_compiled_in_types name s :
  NewKnownTypeRegistryWithDefaults s
  = Ret (Some (length (regs s)))
        (with_regs (regs s ++ [mkKnownTypeRegistry false true mu_zero None]) s)
  ∧ (∀ l reg, regs s !! l = Some reg →
       (regs s ++ [mkKnownTypeRegistry false true mu_zero None]) !! l = Some reg)
  ∧ bind NewKnownTypeRegistryWithDefaults (fun r => CreateIfKnown r name) s
    = match MessageType name with
      | Some t =>
          if ImplementsMessage t
          then Ret (instance_at t (length (cells s)))
                   (grown t (with_regs
                               (regs s ++ [mkKnownTypeRegistry false true mu_zero None])
                               s))
          else Panic
      | None =>
          Ret MNil
              (with_regs (regs s ++ [mkKnownTypeRegistry false true mu_zero None]) s)
      end.
Proof.
  split_and!; [done | |].
  - intros l reg Hl. by apply lookup_app_l_Some.
  - set (fresh := mkKnownTypeRegistry false true mu_zero None).
    assert (NewKnownTypeRegistryWithDefaults s
            = Ret (Some (length (regs s))) (with_regs (regs s ++ [fresh]) s)) as Hnew
      by reflexivity.
    rewrite (bind_Ret _ _ _ _ _ Hnew).
    destruct (MessageType name) as [t |] eqn:Ht.
    + rewrite (CreateIfKnown_compiled _ fresh _ t _ (new_reg_lookup fresh s)).
      * by rewrite instantiate_Some_if.
      * unfold select_compiled. cbn. exact Ht.
    + rewrite (CreateIfKnown_registered _ fresh _ _ (new_reg_lookup fresh s)).
      * reflexivity.
      * unfold select_compiled. cbn. exact Ht.
      * reflexivity.
Qed.

(** X2: a registry made by [NewKnownTypeRegistryWithoutWellKnownTypes]
    knows nothing: a lookup on it returns nil for every name, compiled in
    or not, and allocates nothing. *)
Theorem registry_without_wkt_starts_empty name s :
  bind NewKnownTypeRegistryWithoutWellKnownTypes (fun r => CreateIfKnown r name) s
  = Ret MNil (with_regs (regs s ++ [mkKnownTypeRegistry true false mu_zero None]) s).
Proof.
  set (fresh := mkKnownTypeRegistry true false mu_zero None).
  assert (NewKnownTypeRegistryWithoutWellKnownTypes s
          = Ret (Some (length (regs s))) (with_regs (regs s ++ [fresh]) s)) as Hnew
    by reflexivity.
  rewrite (bind_Ret _ _ _ _ _ Hnew).
  by rewrite (CreateIfKnown_registered _ fresh _ _ (new_reg_lookup fresh s)).
Qed.

(** X3: a factory built from an extension registry alone has a nil
    known-type registry: [NewMessage] on it neither panics nor waits, gives
    an instance of the compiled-in type for a well-known name, and for any
    other name a generic message that refers to the factory, leaving the
    store as it was. *)
Theorem extension_only_factory_knows_the_wkt (er : option nat) md s :
  NewMessage (NewMessageFactoryWithExtensionRegistry er) md s
  = match wkt_only (MessageType (GetFullyQualifiedName md)) with
    | Some t => Ret (instance_at t (length (cells s))) (grown t s)
    | None => Ret (MDyn md (NewMessageFactoryWithExtensionRegistry er)) s
    end.
Proof.
  unfold NewMessageFactoryWithExtensionRegistry, NewMessageFactoryWithRegistries.
  cbn [NewMessage ktr].
  pose proof (CreateIfKnown_nil (GetFullyQualifiedName md) s) as Hc.
  destruct (wkt_only (MessageType (GetFullyQualifiedName md))) as [t |] eqn:Hsel.
  - pose proof (wkt_only_Message _ _ Hsel) as Hmsg.
    rewrite instantiate_Some in Hc by done. rewrite (bind_Ret _ _ _ _ _ Hc).
    by rewrite is_nil_instance_at.
  - rewrite instantiate_None in Hc. by rewrite (bind_Ret _ _ _ _ _ Hc).
Qed.

(** ** Registering, then looking up *)

Lemma after_registering_lookup l reg kts s :
  regs s !! l = Some reg →
  regs (after_registering l kts reg s) !! l = Some (registered kts reg).
Proof. intros Hl. apply lookup_stored. by eapply lookup_lt_Some. Qed.

(** The lookup that follows a registration on the same registry. *)
Lemma lookup_after_registering l reg kts name s :
  regs s !! l = Some reg → mu reg = mu_zero →
  bind (AddKnownType (Some l) kts) (fun _ => CreateIfKnown (Some l) name) s
  = instantiate (match select_compiled reg name with
                 | Some t => Some t
                 | None => registered_type kts reg name
                 end) (after_registering l kts reg s).
Proof.
  intros Hl Hmu. rewrite (bind_Ret _ _ _ _ _ (AddKnownType_Ret _ _ _ _ Hl Hmu)).
  fold (after_registering l kts reg s).
  rewrite CreateIfKnown_resolve. cbn [resolve].
  rewrite (after_registering_lookup _ _ _ _ Hl).
  change (select_compiled (registered kts reg) name) with (select_compiled reg name).
  change (mu (registered kts reg)) with (mu reg). rewrite Hmu. cbn [writer mu_zero].
  rewrite map_index_registered. fold (registered_type kts reg name).
  by destruct (select_compiled reg name).
Qed.

(** X4: what is registered can be looked up.  On a registry whose
    compiled-in steps select nothing for [name], after [AddKnownType] the
    lookup of [name] returns a new instance whose dynamic type is the
    dynamic type of the last registered value that reports [name]. *)
Theorem registered_type_is_instantiated l reg kts kt t name s :
  regs s !! l = Some reg → mu reg = mu_zero →
  select_compiled reg name = None →
  last_named name kts = Some kt → reflect_TypeOf kt = Some t →
  bind (AddKnownType (Some l) kts) (fun _ => CreateIfKnown (Some l) name) s
  = Ret (instance_at t (length (cells s))) (grown t (after_registering l kts reg s))
  ∧ reflect_TypeOf (instance_at t (length (cells s))) = reflect_TypeOf kt.
Proof.
  intros Hl Hmu Hsel Hlast Ht. split.
  - rewrite (lookup_after_registering _ _ _ _ _ Hl Hmu), Hsel.
    unfold registered_type. rewrite Hlast, Ht.
    by rewrite instantiate_Some by (by eapply reflect_TypeOf_Message).
  - rewrite reflect_TypeOf_instance_at; [done |]. by eapply reflect_TypeOf_Message.
Qed.

(** X5: registering cannot replace what the compiled-in steps select.
    When they select a type for [name] (any compiled-in type with
    [includeDefault], a well-known one with neither flag), the lookup of
    [name] after any [AddKnownType] still instantiates that type: it
    returns an instance of it when it is the type of a message, and panics
    at the type assertion when it is a map type, whatever was registered
    under [name]. *)
Theorem registering_cannot_replace_compiled_in l reg kts t name s :
  regs s !! l = Some reg → mu reg = mu_zero →
  select_compiled reg name = Some t →
  bind (AddKnownType (Some l) kts) (fun _ => CreateIfKnown (Some l) name) s
  = if ImplementsMessage t
    then Ret (instance_at t (length (cells s))) (grown t (after_registering l kts reg s))
    else Panic.
Proof.
  intros Hl Hmu Hsel.
  rewrite (lookup_after_registering _ _ _ _ _ Hl Hmu), Hsel.
  by rewrite instantiate_Some_if.
Qed.

(** X6: registering the nil interface takes a name away.  The nil
    interface has no type, so when the last registered value that reports
    [name] is nil, the lookup of [name] returns nil, whatever was
    registered under [name] before (unless a compiled-in step selects a
    type). *)
Theorem registering_nil_unregisters l reg kts name s :
  regs s !! l = Some reg → mu reg = mu_zero →
  select_compiled reg name = None →
  last_named name kts = Some MNil →
  bind (AddKnownType (Some l) kts) (fun _ => CreateIfKnown (Some l) name) s
  = Ret MNil (after_registering l kts reg s).
Proof.
  intros Hl Hmu Hsel Hlast.
  rewrite (lookup_after_registering _ _ _ _ _ Hl Hmu), Hsel.
  unfold registered_type. by rewrite Hlast.
Qed.

(** ** Several registrations *)

Lemma assign_all_app kts1 kts2 (mp : gmap string (option rtype)) :
  assign_all (kts1 ++ kts2) mp = assign_all kts2 (assign_all kts1 mp).
Proof. unfold assign_all. apply foldl_app. Qed.

Lemma registered_app kts1 kts2 reg :
  registered kts2 (registered kts1 reg) = registered (kts1 ++ kts2) reg.
Proof. unfold registered. cbn. by rewrite assign_all_app. Qed.

(** X7: two calls of [AddKnownType] in a row do what one call with all the
    values does. *)
Theorem AddKnownType_calls_concatenate l reg kts1 kts2 s :
  regs s !! l = Some reg → mu reg = mu_zero →
  bind (AddKnownType (Some l) kts1) (fun _ => AddKnownType (Some l) kts2) s
  = AddKnownType (Some l) (kts1 ++ kts2) s.
Proof.
  intros Hl Hmu.
  rewrite (bind_Ret _ _ _ _ _ (AddKnownType_Ret _ _ _ _ Hl Hmu)).
  rewrite (AddKnownType_Ret l (registered kts1 reg));
    [| by apply lookup_stored; eapply lookup_lt_Some | done].
  rewrite with_regs_insert_insert, registered_app.
  symmetry. by apply AddKnownType_Ret.
Qed.

Lemma assign_all_Permutation kts1 kts2 :
  kts1 ≡ₚ kts2 → NoDup (MessageName <$> kts1) →
  ∀ mp : gmap string (option rtype), assign_all kts1 mp = assign_all kts2 mp.
Proof.
  induction 1 as [| x k1 k2 Hp IH | x y k | k1 k2 k3 Hp1 IH1 Hp2 IH2]; intros Hnd mp.
  - done.
  - rewrite fmap_cons in Hnd. apply NoDup_cons in Hnd as [_ Hnd].
    change (assign_all k1 (<[MessageName x := reflect_TypeOf x]> mp)
            = assign_all k2 (<[MessageName x := reflect_TypeOf x]> mp)).
    by apply IH.
  - rewrite !fmap_cons in Hnd. apply NoDup_cons in Hnd as [Hne _].
    change (assign_all k (<[MessageName x := reflect_TypeOf x]>
                            (<[MessageName y := reflect_TypeOf y]> mp))
            = assign_all k (<[MessageName y := reflect_TypeOf y]>
                              (<[MessageName x := reflect_TypeOf x]> mp))).
    f_equal. apply insert_insert_ne. intros Heq. apply Hne. rewrite Heq. by left.
  - rewrite IH1 by done. apply IH2. by rewrite <- Hp1.
Qed.

(** X8: the order of the registered values does not matter as long as no
    two of them report the same name. *)
Theorem AddKnownType_order_is_irrelevant l reg kts1 kts2 s :
  regs s !! l = Some reg → mu reg = mu_zero →
  kts1 ≡ₚ kts2 → NoDup (MessageName <$> kts1) →
  AddKnownType (Some l) kts1 s = AddKnownType (Some l) kts2 s.
Proof.
  intros Hl Hmu Hp Hnd. rewrite !(AddKnownType_Ret _ _ _ _ Hl Hmu).
  unfold registered. by rewrite (assign_all_Permutation _ _ Hp Hnd).
Qed.

Lemma add_each_same l kts1 kts2 :
  Forall2 same_registration kts1 kts2 → ∀ s, add_each l kts1 s = add_each l kts2 s.
Proof.
  induction 1 as [| a b k1 k2 [Hn Ht] _ IH]; intros s; [done |].
  cbn. rewrite Hn, Ht. unfold bind.
  destruct (types_assign l (MessageName b) (reflect_TypeOf b) s); [apply IH | done | done].
Qed.

(** X9: [AddKnownType] looks at nothing of a value but the name it reports
    and its dynamic type: two lists of values that agree on these, one by
    one, have the same effect (a typed nil pointer registers as well as a
    pointer to a filled-in struct), on any registry and in any store. *)
Theorem AddKnownType_reads_name_and_type_only (r : option nat) kts1 kts2 s :
  Forall2 same_registration kts1 kts2 →
  AddKnownType r kts1 s = AddKnownType r kts2 s.
Proof.
  intros Hsame. destruct r as [l |]; [| done]. unfold AddKnownType, bind.
  destruct (Lock l s) as [[] s1 | |]; try done.
  destruct (load_reg l s1) as [reg s2 | |]; try done.
  destruct (match types reg with
            | Some _ => ret ()
            | None => store_reg l (set_types (Some ∅) reg)
            end s2) as [[] s3 | |]; try done.
  by rewrite (add_each_same l _ _ Hsame s3).
Qed.

(** X10: registries do not influence each other.  After [AddKnownType] on
    the registry at [l], every other registry in the store is what it was,
    and a lookup through any other registry pointer, the nil pointer
    included, has the outcome it had before, for every name. *)
Theorem registries_are_independent l reg kts (r : option nat) name s :
  regs s !! l = Some reg → mu reg = mu_zero → r ≠ Some l →
  AddKnownType (Some l) kts s = Ret tt (after_registering l kts reg s)
  ∧ (∀ l', l' ≠ l → regs (after_registering l kts reg s) !! l' = regs s !! l')
  ∧ CreateIfKnown r name (after_registering l kts reg s)
    = outcome_with_regs (regs (after_registering l kts reg s)) (CreateIfKnown r name s).
Proof.
  intros Hl Hmu Hr. split_and!.
  - by apply AddKnownType_Ret.
  - intros l' Hne. cbn. by rewrite list_lookup_insert_ne.
  - rewrite !CreateIfKnown_resolve.
    assert (resolve r name (regs (after_registering l kts reg s))
            = resolve r name (regs s)) as ->.
    { destruct r as [l' |]; [| done]. cbn.
      rewrite list_lookup_insert_ne; [done |]. congruence. }
    destruct (resolve r name (regs s)); try done.
    apply instantiate_with_regs.
Qed.

Lemma reflect_TypeOf_not_nil m : is_nil m = false → is_Some (reflect_TypeOf m).
Proof. destruct m; cbn; eauto; done. Qed.

Lemma last_named_elem_of name kts kt :
  last_named name kts = Some kt → kt ∈ kts ∧ MessageName kt = name.
Proof.
  unfold last_named. intros H. apply last_Some_elem_of in H.
  by apply list_elem_of_filter in H as [? ?].
Qed.

(** X11: a name that is known stays known.  If a lookup answers with a
    type, then the same lookup run after an [AddKnownType] of any values
    that are not the nil interface, on any registry, still answers with a
    type, and with the same type when none of the values reports the
    name. *)
Theorem known_names_stay_known l reg kts (r : option nat) name t s :
  regs s !! l = Some reg → mu reg = mu_zero →
  Forall (fun kt => is_nil kt = false) kts →
  answer_of (CreateIfKnown r name s) = Known t →
  ∃ t',
    answer_of (bind (AddKnownType (Some l) kts) (fun _ => CreateIfKnown r name) s)
    = Known t'
    ∧ ((∀ kt, kt ∈ kts → MessageName kt ≠ name) → t' = t).
Proof.
  intros Hl Hmu Hnn.
  rewrite (bind_Ret _ _ _ _ _ (AddKnownType_Ret _ _ _ _ Hl Hmu)).
  fold (after_registering l kts reg s). rewrite !answer_of_resolve.
  destruct r as [l' |]; cbn [resolve]; [| intros H; exists t; by rewrite H].
  destruct (decide (l' = l)) as [-> | Hne].
  - rewrite (after_registering_lookup _ _ _ _ Hl), Hl.
    change (select_compiled (registered kts reg) name) with (select_compiled reg name).
    change (mu (registered kts reg)) with (mu reg).
    destruct (select_compiled reg name) as [t0 |].
    { intros H. exists t. by rewrite H. }
    rewrite Hmu. cbn [writer mu_zero]. rewrite map_index_registered.
    destruct (last_named name kts) as [kt |] eqn:Hlast.
    + intros _. apply last_named_elem_of in Hlast as [Hin Hname].
      rewrite Forall_forall in Hnn.
      destruct (reflect_TypeOf_not_nil kt (Hnn kt Hin)) as [t' Ht'].
      exists t'. rewrite Ht', (reflect_TypeOf_Message _ _ Ht'). split; [done |].
      intros Hother. by destruct (Hother kt Hin).
    + intros H. exists t. by rewrite H.
  - cbn. rewrite list_lookup_insert_ne by done.
    intros H. exists t. by rewrite H.
Qed.

(** ** The three modes *)

Lemma answer_in_mode_resolve (ex inc : bool) l reg name s :
  regs s !! l = Some reg → writer (mu reg) = false →
  answer_in_mode ex inc l reg name s
  = match match select_compiled (with_flags ex inc reg) name with
          | Some t => Some t
          | None => map_index (types reg) name
          end with
    | Some t => if ImplementsMessage t then Known t else Panics
    | None => Absent
    end.
Proof.
  intros Hl Hw. unfold answer_in_mode. rewrite answer_of_resolve. cbn [resolve].
  rewrite lookup_stored by (by eapply lookup_lt_Some).
  destruct (select_compiled (with_flags ex inc reg) name); [done |].
  cbn. by rewrite Hw.
Qed.

(** X12: the modes are ordered.  With the same registered mapping, a name
    known to a registry that excludes the well-known types is known to one
    with neither flag; a name known to that one is known to a registry
    that includes all compiled-in types, unless [proto.MessageType] finds a
    map type for it, in which case that registry panics; and once
    [includeDefault] is set, [excludeWkt] makes no difference. *)
Theorem wider_modes_know_more l reg name s :
  regs s !! l = Some reg → writer (mu reg) = false →
  (is_known (answer_in_mode true false l reg name s) = true →
   is_known (answer_in_mode false false l reg name s) = true)
  ∧ (is_known (answer_in_mode false false l reg name s) = true →
     is_known (answer_in_mode false true l reg name s) = true
     ∨ (∃ t, MessageType name = Some t ∧ ImplementsMessage t = false
             ∧ answer_in_mode false true l reg name s = Panics))
  ∧ answer_in_mode true true l reg name s = answer_in_mode false true l reg name s.
Proof.
  intros Hl Hw. rewrite !(answer_in_mode_resolve _ _ _ _ _ _ Hl Hw).
  unfold select_compiled, with_flags, wkt_only. cbn.
  destruct (MessageType name) as [t |] eqn:Ht.
  - destruct (ImplementsWkt t) eqn:Hwkt.
    + rewrite (wkt_implements_Message _ Hwkt). cbn. split_and!; [done | by left | done].
    + destruct (ImplementsMessage t) eqn:Hmsg; cbn; split_and!; try done.
      * by left.
      * intros _. right. by exists t.
  - split_and!; [done | by left | done].
Qed.

(** ** NewMessage and the default factory *)

(** X13: [NewMessage] never returns nil and never changes a registry.
    When it returns, the message is either the generic message for the
    descriptor and the factory it was called on, with the store untouched,
    or, on a non-nil factory, an instance of the type the factory's
    registry selects, built in one new cell. *)
Theorem NewMessage_frame (f : option MessageFactory) md s m s' :
  NewMessage f md s = Ret m s' →
  is_nil m = false
  ∧ regs s' = regs s
  ∧ ((m = MDyn md f ∧ s' = s)
     ∨ (∃ fa t,
          f = Some fa
          ∧ resolve (ktr fa) (GetFullyQualifiedName md) (regs s) = Selected (Some t)
          ∧ m = instance_at t (length (cells s)) ∧ s' = grown t s)).
Proof.
  destruct f as [fa |]; cbn [NewMessage].
  - unfold bind.
    destruct (CreateIfKnown (ktr fa) (GetFullyQualifiedName md) s) as [m0 s0 | |] eqn:Hc;
      try done.
    apply CreateIfKnown_Ret_inv in Hc as [(_ & -> & ->) | (t & Hres & Hmsg & -> & ->)].
    + cbn. intros [= <- <-]. split_and!; try done. by left.
    + rewrite is_nil_instance_at by done. cbn. intros [= <- <-].
      split_and!; [by apply is_nil_instance_at | done |]. right. by exists fa, t.
  - intros [= <- <-]. split_and!; try done. by left.
Qed.

(** X14: the factory of [NewMessageFactoryWithDefaults] holds the extension
    registry the extension constructor returned and a new known-type
    registry of all compiled-in types.  [NewMessage] on it instantiates
    whatever [proto.MessageType] finds for the descriptor's name: it
    returns an instance when that is the type of a message and panics at
    the type assertion when it is a map type; for a name that is not
    compiled in it returns a generic message that refers to this
    factory. *)
Theorem defaults_factory_knows_the_compiled_in_types
    (NewExtensionRegistryWithDefaults : M (option nat)) (ext : option nat) md s s1 :
  NewExtensionRegistryWithDefaults s = Ret ext s1 →
  NewMessageFactoryWithDefaults NewExtensionRegistryWithDefaults s
  = Ret (Some (mkMessageFactory ext (Some (length (regs s1)))))
        (with_new_reg (mkKnownTypeRegistry false true mu_zero None) s1)
  ∧ NewMessage (Some (mkMessageFactory ext (Some (length (regs s1))))) md
      (with_new_reg (mkKnownTypeRegistry false true mu_zero None) s1)
    = match MessageType (GetFullyQualifiedName md) with
      | Some t =>
          if ImplementsMessage t
          then Ret (instance_at t (length (cells s1)))
                   (grown t (with_new_reg
                               (mkKnownTypeRegistry false true mu_zero None) s1))
          else Panic
      | None =>
          Ret (MDyn md (Some (mkMessageFactory ext (Some (length (regs s1))))))
              (with_new_reg (mkKnownTypeRegistry false true mu_zero None) s1)
      end.
Proof.
  intros Hext. set (fresh := mkKnownTypeRegistry false true mu_zero None). split.
  - unfold NewMessageFactoryWithDefaults. by rewrite (bind_Ret _ _ _ _ _ Hext).
  - cbn [NewMessage ktr]. unfold with_new_reg.
    destruct (MessageType (GetFullyQualifiedName md)) as [t |] eqn:Ht.
    + assert (CreateIfKnown (Some (length (regs s1))) (GetFullyQualifiedName md)
                (with_regs (regs s1 ++ [fresh]) s1)
              = instantiate (Some t) (with_regs (regs s1 ++ [fresh]) s1)) as Hc.
      { apply (CreateIfKnown_compiled _ fresh _ t _ (new_reg_lookup fresh s1)).
        unfold select_compiled. cbn. exact Ht. }
      rewrite instantiate_Some_if in Hc.
      destruct (ImplementsMessage t) eqn:Hmsg.
      * rewrite (bind_Ret _ _ _ _ _ Hc). by rewrite is_nil_instance_at.
      * by apply bind_Panic.
    + erewrite bind_Ret; last first.
      { rewrite (CreateIfKnown_registered _ fresh _ _ (new_reg_lookup fresh s1)).
        - reflexivity.
        - unfold select_compiled. cbn. exact Ht.
        - reflexivity. }
      reflexivity.
Qed.

End Further.

(** * The demo program: instances of the statements *)

Section DemoRuns.

Import Demo.

(** The lookups of the source's scenario, run. *)
Example lookup_on_nil_registry :
  CreateIfKnown (L:=linked) None ts_name empty_store
  = Ret (MPtr (TNamed "timestamp.Timestamp") (Some 0)) (store [] [[]]).
Proof. vm_compute. reflexivity. Qed.

Example lookup_not_compiled_in :
  CreateIfKnown (L:=linked) None "pkg.Bar" empty_store = Ret MNil empty_store.
Proof. vm_compute. reflexivity. Qed.

Example lookup_compiled_in_not_wkt :
  CreateIfKnown (L:=linked) None "pkg.Foo" empty_store = Ret MNil empty_store.
Proof. vm_compute. reflexivity. Qed.

Example register_then_lookup :
  bind (AddKnownType (L:=linked) (Some 0) [nil_Bar])
       (fun _ => CreateIfKnown (Some 0) "pkg.Bar")
       (store_of KnownTypeRegistry_zero)
  = Ret (MPtr (TNamed "pkg.Bar") (Some 0))
        (store [default_with (<["pkg.Bar" := Some tBar]> ∅)] [[]]).
Proof. vm_compute. reflexivity. Qed.

Example exclude_then_lookup :
  bind (NewKnownTypeRegistryWithoutWellKnownTypes (L:=linked))
       (fun r => CreateIfKnown r ts_name) empty_store
  = Ret MNil (store [mkKnownTypeRegistry true false mu_zero None] []).
Proof. vm_compute. reflexivity. Qed.

Example defaults_then_lookup :
  bind (NewKnownTypeRegistryWithDefaults (L:=linked))
       (fun r => CreateIfKnown r "pkg.Foo") empty_store
  = Ret (MPtr (TNamed "pkg.Foo") (Some 0))
        (store [mkKnownTypeRegistry false true mu_zero None] [[]]).
Proof. vm_compute. reflexivity. Qed.

Example factory_over_nothing :
  NewMessage (L:=linked) (NewMessageFactoryWithExtensionRegistry (Some 0))
    (mkMessageDescriptor ts_name) empty_store
  = Ret (MPtr (TNamed "timestamp.Timestamp") (Some 0)) (store [] [[]])
  ∧ NewMessage (L:=linked) (NewMessageFactoryWithKnownTypeRegistry None)
      (mkMessageDescriptor "pkg.Foo") empty_store
    = Ret (MDyn (mkMessageDescriptor "pkg.Foo")
                (NewMessageFactoryWithKnownTypeRegistry None)) empty_store.
Proof. split; vm_compute; reflexivity. Qed.

Example lookup_by_value :
  CreateIfKnown (L:=linked) (Some 0) "pkg.Flat" (store_of (including_with ∅))
  = Ret (MVal "pkg.Flat" []) (store [including_with ∅] [[]]).
Proof. vm_compute. reflexivity. Qed.

(** The map type of a map entry is selected with [includeDefault] and fails
    the type assertion; with neither flag it is not selected. *)
Example lookup_of_a_map_entry :
  CreateIfKnown (L:=linked) (Some 0) fields_entry_name (store_of (including_with ∅))
  = Panic
  ∧ CreateIfKnown (L:=linked) (Some 0) fields_entry_name (store_of KnownTypeRegistry_zero)
    = Ret MNil (store_of KnownTypeRegistry_zero).
Proof. split; vm_compute; reflexivity. Qed.

Example lookup_waits_for_writer :
  CreateIfKnown (L:=linked) (Some 0) "pkg.Bar"
    (store_of (set_mu {| writer := true; readers := 0 |} KnownTypeRegistry_zero))
  = Blocked.
Proof. vm_compute. reflexivity. Qed.

(** C1 at a registry that maps the name of [Timestamp] to a user struct. *)
Lemma compiled_in_wins_over_registered_witness :
  CreateIfKnown (L:=linked) (Some 0) ts_name
    (store_of (default_with (<[ts_name := Some tShadow]> ∅)))
  = Ret (MPtr (TNamed "timestamp.Timestamp") (Some 0))
        (store [default_with (<[ts_name := Some tShadow]> ∅)] [[]]).
Proof.
  apply (proj1 (compiled_in_wins_over_registered (L:=linked) 0
                  (default_with (<[ts_name := Some tShadow]> ∅))
                  ts_name tTimestamp tShadow
                  (store_of (default_with (<[ts_name := Some tShadow]> ∅)))
                  ltac:(reflexivity) ltac:(reflexivity) ltac:(reflexivity)
                  ltac:(reflexivity) ltac:(reflexivity)
                  ltac:(vm_compute; reflexivity))).
Defined.

(** C2 at the zero-value registry. *)
Lemma nil_and_zero_registry_agree_witness :
  CreateIfKnown (L:=linked) None ts_name (store_of KnownTypeRegistry_zero)
  = CreateIfKnown (L:=linked) (Some 0) ts_name (store_of KnownTypeRegistry_zero)
  ∧ CreateIfKnown (L:=linked) None "pkg.Foo" (store_of KnownTypeRegistry_zero)
    = CreateIfKnown (L:=linked) (Some 0) "pkg.Foo" (store_of KnownTypeRegistry_zero).
Proof.
  split.
  - destruct (nil_and_zero_registry_agree (L:=linked) 0 KnownTypeRegistry_zero
                ts_name (store_of KnownTypeRegistry_zero)
                eq_refl eq_refl eq_refl eq_refl eq_refl)
      as (m & s' & H1 & H2 & _).
    rewrite H1, H2. reflexivity.
  - destruct (nil_and_zero_registry_agree (L:=linked) 0 KnownTypeRegistry_zero
                "pkg.Foo" (store_of KnownTypeRegistry_zero)
                eq_refl eq_refl eq_refl eq_refl eq_refl)
      as (m & s' & H1 & H2 & _).
    rewrite H1, H2. reflexivity.
Defined.

(** C4 at a registry without the well-known types, with [pkg.Bar]
    registered, and at the registration of [pkg.Bar] on an empty one. *)
Lemma excluded_wkt_only_if_registered_witness :
  CreateIfKnown (L:=linked) (Some 0) ts_name
    (store_of (excluding_with (<["pkg.Bar" := Some tBar]> ∅)))
  = Ret MNil (store_of (excluding_with (<["pkg.Bar" := Some tBar]> ∅)))
  ∧ CreateIfKnown (L:=linked) (Some 0) "pkg.Bar"
      (store_of (excluding_with (<["pkg.Bar" := Some tBar]> ∅)))
    = Ret (MPtr (TNamed "pkg.Bar") (Some 0))
          (store [excluding_with (<["pkg.Bar" := Some tBar]> ∅)] [[]])
  ∧ bind (AddKnownType (L:=linked) (Some 0) [nil_Bar])
         (fun _ => CreateIfKnown (L:=linked) (Some 0) "pkg.Bar")
         (store_of (mkKnownTypeRegistry true false mu_zero None))
    = Ret (MPtr (TNamed "pkg.Bar") (Some 0))
          (store [excluding_with (<["pkg.Bar" := Some tBar]> ∅)] [[]]).
Proof.
  split; [| split].
  - apply (proj1 (excluded_wkt_only_if_registered (L:=linked) 0
                    (excluding_with (<["pkg.Bar" := Some tBar]> ∅)) ts_name
                    (store_of (excluding_with (<["pkg.Bar" := Some tBar]> ∅)))
                    eq_refl eq_refl eq_refl eq_refl)).
    reflexivity.
  - apply (proj1 (proj2 (excluded_wkt_only_if_registered (L:=linked) 0
                    (excluding_with (<["pkg.Bar" := Some tBar]> ∅)) "pkg.Bar"
                    (store_of (excluding_with (<["pkg.Bar" := Some tBar]> ∅)))
                    eq_refl eq_refl eq_refl eq_refl)) tBar).
    reflexivity.
  - etrans.
    + exact (proj2 (proj2 (excluded_wkt_only_if_registered (L:=linked) 0
                      (mkKnownTypeRegistry true false mu_zero None) "pkg.Bar"
                      (store_of (mkKnownTypeRegistry true false mu_zero None))
                      eq_refl eq_refl eq_refl eq_refl)) nil_Bar tBar eq_refl eq_refl).
    + vm_compute. reflexivity.
Defined.

(** C5 at a registry with both flags set: a compiled-in type that is not
    well known, a well-known one, and the map type of a map entry. *)
Lemma include_all_compiled_unconditional_witness :
  CreateIfKnown (L:=linked) (Some 0) "pkg.Foo"
    (store_of (mkKnownTypeRegistry true true mu_zero None))
  = Ret (MPtr (TNamed "pkg.Foo") (Some 0))
        (store [mkKnownTypeRegistry true true mu_zero None] [[]])
  ∧ CreateIfKnown (L:=linked) (Some 0) ts_name
      (store_of (mkKnownTypeRegistry true true mu_zero None))
    = Ret (MPtr (TNamed "timestamp.Timestamp") (Some 0))
          (store [mkKnownTypeRegistry true true mu_zero None] [[]])
  ∧ CreateIfKnown (L:=linked) (Some 0) fields_entry_name
      (store_of (mkKnownTypeRegistry true true mu_zero None))
    = Panic.
Proof.
  split; [| split].
  - apply (proj1 (include_all_compiled_unconditional (L:=linked) 0
                    (mkKnownTypeRegistry true true mu_zero None) "pkg.Foo"
                    (store_of (mkKnownTypeRegistry true true mu_zero None))
                    eq_refl eq_refl) tFoo).
    reflexivity.
  - apply (proj1 (include_all_compiled_unconditional (L:=linked) 0
                    (mkKnownTypeRegistry true true mu_zero None) ts_name
                    (store_of (mkKnownTypeRegistry true true mu_zero None))
                    eq_refl eq_refl) tTimestamp).
    reflexivity.
  - apply (proj1 (include_all_compiled_unconditional (L:=linked) 0
                    (mkKnownTypeRegistry true true mu_zero None) fields_entry_name
                    (store_of (mkKnownTypeRegistry true true mu_zero None))
                    eq_refl eq_refl) tFieldsEntry).
    reflexivity.
Defined.

(** C6 at two lookups of [Timestamp], a pointer type, on the nil registry,
    and two lookups of [pkg.Flat], a value type, on a registry of all
    compiled-in types. *)
Lemma successive_instances_are_fresh_witness :
  (∃ m1 s1 m2 s2,
     CreateIfKnown (L:=linked) None ts_name empty_store = Ret m1 s1
     ∧ CreateIfKnown (L:=linked) None ts_name s1 = Ret m2 s2
     ∧ m1 = MPtr (TNamed "timestamp.Timestamp") (Some 0)
     ∧ m2 = MPtr (TNamed "timestamp.Timestamp") (Some 1)
     ∧ m1 ≠ m2
     ∧ cells s2 = [[]; []])
  ∧ (∃ m1 s1 m2 s2,
       CreateIfKnown (L:=linked) (Some 0) "pkg.Flat" (store_of (including_with ∅))
       = Ret m1 s1
       ∧ CreateIfKnown (L:=linked) (Some 0) "pkg.Flat" s1 = Ret m2 s2
       ∧ m1 = MVal "pkg.Flat" []
       ∧ m2 = MVal "pkg.Flat" []
       ∧ cells s2 = [[]; []]).
Proof.
  split.
  - destruct (successive_instances_are_fresh (L:=linked) None ts_name tTimestamp
                empty_store ltac:(vm_compute; reflexivity) ltac:(reflexivity))
      as (m1 & s1 & m2 & s2 & H1 & H2 & _ & _ & Hm1 & Hs1 & Hm2 & Hs2 & _ & _ & _ & _
          & _ & _ & Hptr & _).
    destruct (Hptr eq_refl) as (_ & _ & Hne).
    exists m1, s1, m2, s2. subst s2 s1.
    split; [exact H1 |]. split; [exact H2 |]. split; [exact Hm1 |].
    split; [exact Hm2 |]. split; [exact Hne | reflexivity].
  - destruct (successive_instances_are_fresh (L:=linked) (Some 0) "pkg.Flat" tFlat
                (store_of (including_with ∅))
                ltac:(vm_compute; reflexivity) ltac:(reflexivity))
      as (m1 & s1 & m2 & s2 & H1 & H2 & _ & _ & Hm1 & Hs1 & Hm2 & Hs2 & _).
    exists m1, s1, m2, s2. subst s2 s1.
    split; [exact H1 |]. split; [exact H2 |]. split; [exact Hm1 |].
    split; [exact Hm2 | reflexivity].
Defined.

(** C7 at the zero-value registry and three instances, two of one name. *)
Lemma AddKnownType_last_wins_and_only_adds_witness :
  ∃ s',
    AddKnownType (L:=linked) (Some 0) [nil_Shadow; nil_Bar; MPtr (TNamed "timestamp.Timestamp") None]
      (store_of KnownTypeRegistry_zero) = Ret tt s'
    ∧ regs s' = [default_with (<[ts_name := Some tTimestamp]>
                                 (<["pkg.Bar" := Some tBar]> ∅))].
Proof.
  destruct (AddKnownType_last_wins_and_only_adds (L:=linked) 0 KnownTypeRegistry_zero
              [nil_Shadow; nil_Bar; MPtr (TNamed "timestamp.Timestamp") None]
              (store_of KnownTypeRegistry_zero) eq_refl eq_refl)
    as (s' & Hadd & Hregs & _).
  exists s'. split; [exact Hadd |]. rewrite Hregs. vm_compute. reflexivity.
Defined.

(** C8 at the zero-value registry, the nil interface and a nil pointer. *)
Lemma AddKnownType_checks_nothing_witness :
  AddKnownType (L:=linked) (Some 0) [MNil; nil_Bar] (store_of KnownTypeRegistry_zero)
  = Ret tt (store_of (default_with (<["pkg.Bar" := Some tBar]> (<["" := None]> ∅)))).
Proof.
  destruct (proj2 (AddKnownType_checks_nothing (L:=linked) [MNil; nil_Bar]
                     (store_of KnownTypeRegistry_zero))
                  0 KnownTypeRegistry_zero eq_refl eq_refl) as [Hadd _].
  rewrite Hadd. vm_compute. reflexivity.
Defined.

(** C8 as the claim has it fails: the nil interface is no message
    instance and reports the empty name, and registering it returns, with
    a nil type filed under the empty name. *)
Lemma AddKnownType_accepts_the_nil_interface :
  @MessageName linked MNil = ""
  ∧ reflect_TypeOf (MNil : Message fields) = None
  ∧ AddKnownType (L:=linked) (Some 0) [MNil] (store_of KnownTypeRegistry_zero)
    = Ret tt (store_of (default_with (<["" := None]> ∅)))
  ∧ AddKnownType (L:=linked) (Some 0) [MNil] (store_of KnownTypeRegistry_zero) ≠ Panic.
Proof.
  split; [reflexivity |]. split; [reflexivity |]. split.
  - vm_compute. reflexivity.
  - vm_compute. discriminate.
Qed.


(** C10 at three lookups on a registry with one registered type, and at a
    sequence that contains the name of a map entry on a registry of all
    compiled-in types. *)
Lemma CreateIfKnown_leaves_registries_witness :
  (∃ ms s',
     CreateIfKnown_each (L:=linked) (Some 0) [ts_name; "pkg.Bar"; "pkg.Foo"]
       (store_of (default_with (<["pkg.Bar" := Some tBar]> ∅))) = Ret ms s'
     ∧ length ms = 3
     ∧ regs s' = [default_with (<["pkg.Bar" := Some tBar]> ∅)])
  ∧ CreateIfKnown_each (L:=linked) (Some 0) ["pkg.Foo"; fields_entry_name]
      (store_of (including_with ∅)) = Panic.
Proof.
  split.
  - destruct (CreateIfKnown_leaves_registries (L:=linked) (Some 0)
                [ts_name; "pkg.Bar"; "pkg.Foo"]
                (store_of (default_with (<["pkg.Bar" := Some tBar]> ∅))))
      as (Hframe & Hreturns & _).
    destruct Hreturns as (ms & s' & Hrun & Hlen).
    { exists (default_with (<["pkg.Bar" := Some tBar]> ∅)). split; reflexivity. }
    { intros name t Hin Hres.
      repeat (apply elem_of_cons in Hin as [-> | Hin]);
        [vm_compute in Hres;
         first [discriminate Hres | injection Hres as <-; reflexivity] ..
        | by apply elem_of_nil in Hin]. }
    exists ms, s'. split; [exact Hrun |]. split; [exact Hlen |].
    apply (Hframe ms s' Hrun).
  - destruct (CreateIfKnown_leaves_registries (L:=linked) (Some 0)
                ["pkg.Foo"; fields_entry_name] (store_of (including_with ∅)))
      as (_ & _ & Hpanics).
    apply (Hpanics ltac:(exists (including_with ∅); split; reflexivity)
                   fields_entry_name tFieldsEntry).
    + right. left.
    + vm_compute. reflexivity.
    + reflexivity.
Defined.

End DemoRuns.

(** * The demo program: instances of the further properties *)

Section FurtherRuns.

Import Demo.

(** Order matters when two values report one name: the later one wins. *)
Example order_matters_for_one_name :
  AddKnownType (L:=linked) (Some 0) [nil_Shadow; MPtr (TNamed "timestamp.Timestamp") None]
    (store_of KnownTypeRegistry_zero)
  ≠ AddKnownType (L:=linked) (Some 0) [MPtr (TNamed "timestamp.Timestamp") None; nil_Shadow]
      (store_of KnownTypeRegistry_zero).
Proof. vm_compute. discriminate. Qed.

(** X1 at a store that already holds a registry, for a compiled-in message
    type and for the name of a map entry. *)
Lemma defaults_registry_knows_the_compiled_in_types_witness :
  bind (NewKnownTypeRegistryWithDefaults (L:=linked))
       (fun r => CreateIfKnown r "pkg.Foo") (store_of KnownTypeRegistry_zero)
  = Ret (MPtr (TNamed "pkg.Foo") (Some 0))
        (store [KnownTypeRegistry_zero; mkKnownTypeRegistry false true mu_zero None] [[]])
  ∧ bind (NewKnownTypeRegistryWithDefaults (L:=linked))
         (fun r => CreateIfKnown r fields_entry_name) (store_of KnownTypeRegistry_zero)
    = Panic
  ∧ (regs (store_of KnownTypeRegistry_zero)
       ++ [mkKnownTypeRegistry false true mu_zero None]) !! 0
    = Some KnownTypeRegistry_zero.
Proof.
  split; [| split].
  - destruct (defaults_registry_knows_the_compiled_in_types (L:=linked) "pkg.Foo"
                (store_of KnownTypeRegistry_zero)) as (_ & _ & Hlookup).
    rewrite Hlookup. reflexivity.
  - destruct (defaults_registry_knows_the_compiled_in_types (L:=linked) fields_entry_name
                (store_of KnownTypeRegistry_zero)) as (_ & _ & Hlookup).
    rewrite Hlookup. reflexivity.
  - destruct (defaults_registry_knows_the_compiled_in_types (L:=linked) "pkg.Foo"
                (store_of KnownTypeRegistry_zero)) as (_ & Hold & _).
    apply (Hold 0 KnownTypeRegistry_zero). reflexivity.
Defined.

(** X4 at a registry without the well-known types. *)
Lemma registered_type_is_instantiated_witness :
  bind (AddKnownType (L:=linked) (Some 0) [nil_Bar])
       (fun _ => CreateIfKnown (Some 0) "pkg.Bar")
       (store_of (mkKnownTypeRegistry true false mu_zero None))
  = Ret (MPtr (TNamed "pkg.Bar") (Some 0))
        (store [excluding_with (<["pkg.Bar" := Some tBar]> ∅)] [[]]).
Proof.
  rewrite (proj1 (registered_type_is_instantiated (L:=linked) 0
                    (mkKnownTypeRegistry true false mu_zero None)
                    [nil_Bar] nil_Bar tBar "pkg.Bar"
                    (store_of (mkKnownTypeRegistry true false mu_zero None))
                    ltac:(reflexivity) ltac:(reflexivity)
                    ltac:(vm_compute; reflexivity) ltac:(vm_compute; reflexivity)
                    ltac:(reflexivity))).
  vm_compute. reflexivity.
Defined.

(** X5 at the zero-value registry and a user struct that reports the name
    of [Timestamp], and at a registry of all compiled-in types and a value
    registered under the name of a map entry. *)
Lemma registering_cannot_replace_compiled_in_witness :
  bind (AddKnownType (L:=linked) (Some 0) [nil_Shadow])
       (fun _ => CreateIfKnown (L:=linked) (Some 0) ts_name)
       (store_of KnownTypeRegistry_zero)
  = Ret (MPtr (TNamed "timestamp.Timestamp") (Some 0))
        (store [default_with (<[ts_name := Some tShadow]> ∅)] [[]])
  ∧ bind (AddKnownType (L:=linked) (Some 0)
            [MDyn (mkMessageDescriptor fields_entry_name) None])
         (fun _ => CreateIfKnown (L:=linked) (Some 0) fields_entry_name)
         (store_of (including_with ∅))
    = Panic.
Proof.
  split.
  - rewrite (registering_cannot_replace_compiled_in (L:=linked) 0 KnownTypeRegistry_zero
               [nil_Shadow] tTimestamp ts_name (store_of KnownTypeRegistry_zero)
               ltac:(reflexivity) ltac:(reflexivity) ltac:(vm_compute; reflexivity)).
    vm_compute. reflexivity.
  - rewrite (registering_cannot_replace_compiled_in (L:=linked) 0 (including_with ∅)
               [MDyn (mkMessageDescriptor fields_entry_name) None]
               tFieldsEntry fields_entry_name (store_of (including_with ∅))
               ltac:(reflexivity) ltac:(reflexivity) ltac:(vm_compute; reflexivity)).
    reflexivity.
Defined.

(** X6 at a struct without a name, registered and then followed by nil. *)
Lemma registering_nil_unregisters_witness :
  bind (AddKnownType (L:=linked) (Some 0) [MPtr (TNamed "pkg.Unnamed") None; MNil])
       (fun _ => CreateIfKnown (Some 0) "")
       (store_of KnownTypeRegistry_zero)
  = Ret MNil (store_of (default_with (<["" := None]> ∅)))
  ∧ bind (AddKnownType (L:=linked) (Some 0) [MPtr (TNamed "pkg.Unnamed") None])
         (fun _ => CreateIfKnown (Some 0) "")
         (store_of KnownTypeRegistry_zero)
    = Ret (MPtr (TNamed "pkg.Unnamed") (Some 0))
          (store [default_with (<["" := Some (TPtr (TNamed "pkg.Unnamed"))]> ∅)] [[]]).
Proof.
  split.
  - rewrite (registering_nil_unregisters (L:=linked) 0 KnownTypeRegistry_zero
               [MPtr (TNamed "pkg.Unnamed") None; MNil] ""
               (store_of KnownTypeRegistry_zero)
               ltac:(reflexivity) ltac:(reflexivity)
               ltac:(vm_compute; reflexivity) ltac:(vm_compute; reflexivity)).
    vm_compute. reflexivity.
  - vm_compute. reflexivity.
Defined.

(** X7 at two calls with one value each. *)
Lemma AddKnownType_calls_concatenate_witness :
  bind (AddKnownType (L:=linked) (Some 0) [nil_Bar])
       (fun _ => AddKnownType (L:=linked) (Some 0) [nil_Shadow])
       (store_of KnownTypeRegistry_zero)
  = AddKnownType (L:=linked) (Some 0) [nil_Bar; nil_Shadow]
      (store_of KnownTypeRegistry_zero).
Proof.
  apply (AddKnownType_calls_concatenate (L:=linked) 0 KnownTypeRegistry_zero
           [nil_Bar] [nil_Shadow] (store_of KnownTypeRegistry_zero)
           ltac:(reflexivity) ltac:(reflexivity)).
Defined.

(** X8 at two values of different names. *)
Lemma AddKnownType_order_is_irrelevant_witness :
  AddKnownType (L:=linked) (Some 0) [nil_Bar; nil_Shadow] (store_of KnownTypeRegistry_zero)
  = AddKnownType (L:=linked) (Some 0) [nil_Shadow; nil_Bar] (store_of KnownTypeRegistry_zero).
Proof.
  apply (AddKnownType_order_is_irrelevant (L:=linked) 0 KnownTypeRegistry_zero
           [nil_Bar; nil_Shadow] [nil_Shadow; nil_Bar] (store_of KnownTypeRegistry_zero)
           ltac:(reflexivity) ltac:(reflexivity)).
  - apply perm_swap.
  - apply (bool_decide_unpack _). vm_compute. exact I.
Defined.

(** X9 at a typed nil pointer and a pointer to an allocated struct. *)
Lemma AddKnownType_reads_name_and_type_only_witness :
  AddKnownType (L:=linked) (Some 0) [nil_Bar] (store [KnownTypeRegistry_zero] [[("x", 1)]])
  = AddKnownType (L:=linked) (Some 0) [MPtr (TNamed "pkg.Bar") (Some 0)]
      (store [KnownTypeRegistry_zero] [[("x", 1)]]).
Proof.
  apply (AddKnownType_reads_name_and_type_only (L:=linked) (Some 0)
           [nil_Bar] [MPtr (TNamed "pkg.Bar") (Some 0)]).
  constructor; [split; reflexivity | constructor].
Defined.

(** X10 at two registries: registering on the first, looking up on the
    second. *)
Lemma registries_are_independent_witness :
  CreateIfKnown (L:=linked) (Some 1) "pkg.Bar"
    (after_registering (L:=linked) 0 [nil_Bar] KnownTypeRegistry_zero
       (store [KnownTypeRegistry_zero; mkKnownTypeRegistry true false mu_zero None] []))
  = Ret MNil
        (store [default_with (<["pkg.Bar" := Some tBar]> ∅);
                mkKnownTypeRegistry true false mu_zero None] []).
Proof.
  rewrite (proj2 (proj2 (registries_are_independent (L:=linked) 0 KnownTypeRegistry_zero
                           [nil_Bar] (Some 1) "pkg.Bar"
                           (store [KnownTypeRegistry_zero;
                                   mkKnownTypeRegistry true false mu_zero None] [])
                           ltac:(reflexivity) ltac:(reflexivity) ltac:(discriminate)))).
  vm_compute. reflexivity.
Defined.

(** X11 at a registered name and a later registration of other values. *)
Lemma known_names_stay_known_witness :
  ∃ t',
    answer_of (bind (AddKnownType (L:=linked) (Some 0) [nil_Shadow])
                    (fun _ => CreateIfKnown (L:=linked) (Some 0) "pkg.Bar")
                    (store_of (default_with (<["pkg.Bar" := Some tBar]> ∅))))
    = Known t'
    ∧ t' = tBar.
Proof.
  destruct (known_names_stay_known (L:=linked) 0
              (default_with (<["pkg.Bar" := Some tBar]> ∅)) [nil_Shadow]
              (Some 0) "pkg.Bar" tBar
              (store_of (default_with (<["pkg.Bar" := Some tBar]> ∅)))
              ltac:(reflexivity) ltac:(reflexivity)
              ltac:(repeat constructor) ltac:(vm_compute; reflexivity))
    as (t' & Hknown & Hsame).
  exists t'. split; [exact Hknown |]. apply Hsame.
  intros kt Hin. apply list_elem_of_singleton in Hin as ->. vm_compute. discriminate.
Defined.

(** X12 at a registry with [pkg.Bar] registered, for the name of
    [Timestamp], and at a registry that has a type registered under the
    name of a map entry. *)
Lemma wider_modes_know_more_witness :
  (is_known (answer_in_mode (L:=linked) false true 0
               (default_with (<["pkg.Bar" := Some tBar]> ∅)) ts_name
               (store_of (default_with (<["pkg.Bar" := Some tBar]> ∅)))) = true
   ∨ ∃ t, @MessageType linked ts_name = Some t ∧ ImplementsMessage t = false
          ∧ answer_in_mode (L:=linked) false true 0
              (default_with (<["pkg.Bar" := Some tBar]> ∅)) ts_name
              (store_of (default_with (<["pkg.Bar" := Some tBar]> ∅))) = Panics)
  ∧ (is_known (answer_in_mode (L:=linked) false true 0
                 (default_with (<[fields_entry_name := Some tBar]> ∅)) fields_entry_name
                 (store_of (default_with (<[fields_entry_name := Some tBar]> ∅)))) = true
     ∨ ∃ t, @MessageType linked fields_entry_name = Some t ∧ ImplementsMessage t = false
            ∧ answer_in_mode (L:=linked) false true 0
                (default_with (<[fields_entry_name := Some tBar]> ∅)) fields_entry_name
                (store_of (default_with (<[fields_entry_name := Some tBar]> ∅))) = Panics).
Proof.
  split.
  - destruct (wider_modes_know_more (L:=linked) 0
                (default_with (<["pkg.Bar" := Some tBar]> ∅)) ts_name
                (store_of (default_with (<["pkg.Bar" := Some tBar]> ∅)))
                ltac:(reflexivity) ltac:(reflexivity)) as (_ & Hwider & _).
    apply Hwider. vm_compute. reflexivity.
  - destruct (wider_modes_know_more (L:=linked) 0
                (default_with (<[fields_entry_name := Some tBar]> ∅)) fields_entry_name
                (store_of (default_with (<[fields_entry_name := Some tBar]> ∅)))
                ltac:(reflexivity) ltac:(reflexivity)) as (_ & Hwider & _).
    apply Hwider. vm_compute. reflexivity.
Defined.

(** Known with neither flag, a panic with [includeDefault]. *)
Example map_entry_breaks_the_order :
  answer_in_mode (L:=linked) false false 0
    (default_with (<[fields_entry_name := Some tBar]> ∅)) fields_entry_name
    (store_of (default_with (<[fields_entry_name := Some tBar]> ∅))) = Known tBar
  ∧ answer_in_mode (L:=linked) false true 0
      (default_with (<[fields_entry_name := Some tBar]> ∅)) fields_entry_name
      (store_of (default_with (<[fields_entry_name := Some tBar]> ∅))) = Panics.
Proof. split; vm_compute; reflexivity. Qed.

(** X13 at a factory over a registry of all compiled-in types. *)
Lemma NewMessage_frame_witness :
  regs (store [mkKnownTypeRegistry false true mu_zero None] [[]])
  = regs (store_of (mkKnownTypeRegistry false true mu_zero None)).
Proof.
  destruct (NewMessage_frame (L:=linked) (Some (mkMessageFactory None (Some 0)))
              (mkMessageDescriptor "pkg.Foo")
              (store_of (mkKnownTypeRegistry false true mu_zero None))
              (MPtr (TNamed "pkg.Foo") (Some 0))
              (store [mkKnownTypeRegistry false true mu_zero None] [[]])
              ltac:(vm_compute; reflexivity)) as (_ & Hregs & _).
  exact Hregs.
Defined.

(** X14 with an extension constructor that returns address 7, for a
    compiled-in message type and for the descriptor of a map entry. *)
Lemma defaults_factory_knows_the_compiled_in_types_witness :
  NewMessageFactoryWithDefaults (L:=linked) (ret (Some 7)) empty_store
  = Ret (Some (mkMessageFactory (Some 7) (Some 0)))
        (store [mkKnownTypeRegistry false true mu_zero None] [])
  ∧ NewMessage (L:=linked) (Some (mkMessageFactory (Some 7) (Some 0)))
      (mkMessageDescriptor "pkg.Foo")
      (store [mkKnownTypeRegistry false true mu_zero None] [])
    = Ret (MPtr (TNamed "pkg.Foo") (Some 0))
          (store [mkKnownTypeRegistry false true mu_zero None] [[]])
  ∧ NewMessage (L:=linked) (Some (mkMessageFactory (Some 7) (Some 0)))
      (mkMessageDescriptor fields_entry_name)
      (store [mkKnownTypeRegistry false true mu_zero None] [])
    = Panic.
Proof.
  split; [| split].
  - destruct (defaults_factory_knows_the_compiled_in_types (L:=linked) (ret (Some 7))
                (Some 7) (mkMessageDescriptor "pkg.Foo") empty_store empty_store
                ltac:(reflexivity)) as [Hnew _].
    exact Hnew.
  - destruct (defaults_factory_knows_the_compiled_in_types (L:=linked) (ret (Some 7))
                (Some 7) (mkMessageDescriptor "pkg.Foo") empty_store empty_store
                ltac:(reflexivity)) as [_ Hmsg].
    exact Hmsg.
  - destruct (defaults_factory_knows_the_compiled_in_types (L:=linked) (ret (Some 7))
                (Some 7) (mkMessageDescriptor fields_entry_name) empty_store empty_store
                ltac:(reflexivity)) as [_ Hmsg].
    exact Hmsg.
Defined.

End FurtherRuns.
